(** * GCEMetadataScripts: a shallow embedding of [main.go]

    The development follows
    [metadata_scripts/GCEMetadataScripts/main.go]: the regular
    expressions of the storage URL matcher and [findMatch], the
    downloaders, the recursive [run] method of [metadataScript], the
    temp-file runners, [parseMetadata], [runScripts] and [main].

    Go strings are byte sequences; they are modelled by [string] (a list
    of 8-bit [ascii]).  Everything the program does to the outside
    world (file system, child processes, HTTP, object storage, logging)
    is modelled by explicit state passing over a [World] that records
    the history of effects, the outside world's answers being given by
    an [Env] of oracles that may depend on that history. *)

From Stdlib Require Import ZArith Ascii String Lia Bool.
From stdpp Require Import gmap strings list sorting.

Local Open Scope Z_scope.
Local Open Scope stdpp_scope.

(** ** Byte strings *)

Module Bytes.

Abbreviation len := String.length.

(** [s[n:]] for [n <= len s]. *)
Fixpoint sdrop (n : nat) (s : string) : string :=
  match n, s with
  | O, _ => s
  | S n', String _ s' => sdrop n' s'
  | S _, EmptyString => EmptyString
  end.

(** [s[:n]] for [n <= len s]. *)
Fixpoint stake (n : nat) (s : string) : string :=
  match n, s with
  | O, _ => EmptyString
  | S n', String c s' => String c (stake n' s')
  | S _, EmptyString => EmptyString
  end.

(** The text consumed when going from input [s] to its suffix [s']. *)
Definition consumed (s s' : string) : string :=
  stake (len s - len s') s.

Fixpoint has_prefix (p s : string) : bool :=
  match p, s with
  | EmptyString, _ => true
  | String a p', String b s' => if Ascii.eqb a b then has_prefix p' s' else false
  | String _ _, EmptyString => false
  end.

(** [strings.HasSuffix]. *)
Definition has_suffix (s suffix : string) : bool :=
  (len suffix <=? len s)%nat &&
  String.eqb (sdrop (len s - len suffix) s) suffix.

Fixpoint mem (c : ascii) (s : string) : bool :=
  match s with
  | EmptyString => false
  | String a s' => Ascii.eqb a c || mem c s'
  end.

Fixpoint all (f : ascii -> bool) (s : string) : bool :=
  match s with
  | EmptyString => true
  | String a s' => f a && all f s'
  end.

Lemma sapp_cons c s t : String c s +:+ t = String c (s +:+ t).
Proof. reflexivity. Qed.

Lemma sapp_nil_l t : "" +:+ t = t.
Proof. reflexivity. Qed.

Lemma sapp_nil_r s : s +:+ "" = s.
Proof. induction s as [|c s IH]; [done|]. by rewrite sapp_cons, IH. Qed.

Lemma sapp_assoc s t u : (s +:+ t) +:+ u = s +:+ t +:+ u.
Proof. induction s as [|c s IH]; [done|]. by rewrite !sapp_cons, IH. Qed.

Lemma len_app s t : len (s +:+ t) = (len s + len t)%nat.
Proof. induction s as [|c s IH]; [done|]. rewrite sapp_cons. simpl. by rewrite IH. Qed.

Lemma sdrop_app s t : sdrop (len s) (s +:+ t) = t.
Proof. induction s as [|c s IH]; [by destruct t|]. by rewrite sapp_cons. Qed.

Lemma stake_app s t : stake (len s) (s +:+ t) = s.
Proof. induction s as [|c s IH]; [by destruct t|]. rewrite sapp_cons. simpl. by rewrite IH. Qed.

Lemma stake_sdrop n s : stake n s +:+ sdrop n s = s.
Proof.
  revert s. induction n as [|n IH]; intros [|c s]; simpl; try done.
  by rewrite sapp_cons, IH.
Qed.

Lemma len_sdrop n s : len (sdrop n s) = (len s - n)%nat.
Proof. revert s. induction n as [|n IH]; intros [|c s]; simpl; auto with lia. Qed.

Lemma len_stake n s : len (stake n s) = Nat.min n (len s).
Proof. revert s. induction n as [|n IH]; intros [|c s]; simpl; auto with lia. Qed.

Lemma consumed_app s t : consumed (s +:+ t) t = s.
Proof.
  unfold consumed. rewrite len_app.
  replace (len s + len t - len t)%nat with (len s) by lia. apply stake_app.
Qed.

Lemma consumed_self s : consumed s s = "".
Proof. unfold consumed. rewrite Nat.sub_diag. by destruct s. Qed.

Lemma has_prefix_spec p s : has_prefix p s = true <-> exists t, s = p +:+ t.
Proof.
  revert s. induction p as [|a p IH]; intros s; simpl.
  - split; [intros _; by exists s|done].
  - destruct s as [|b s].
    + split; [done|]. intros [t Ht]. by rewrite sapp_cons in Ht.
    + destruct (Ascii.eqb_spec a b) as [->|Hne].
      * rewrite IH. split; intros [t Ht]; exists t.
        -- by rewrite sapp_cons, Ht.
        -- rewrite sapp_cons in Ht. congruence.
      * split; [done|]. intros [t Ht]. rewrite sapp_cons in Ht. congruence.
Qed.

Lemma mem_app c s t : mem c (s +:+ t) = mem c s || mem c t.
Proof.
  induction s as [|a s IH]; [done|]. rewrite sapp_cons. simpl.
  by rewrite IH, orb_assoc.
Qed.

Lemma all_app f s t : all f (s +:+ t) = all f s && all f t.
Proof.
  induction s as [|a s IH]; [done|]. rewrite sapp_cons. simpl.
  by rewrite IH, andb_assoc.
Qed.

End Bytes.

(** ** The regular expressions of package [regexp]

    [regexp.MustCompile] and [FindStringSubmatch] belong to Go's
    standard library.  They are modelled by a backtracking matcher with
    Go's leftmost-first preference: an alternation tries its left
    branch first, [*], [+] and [?] are greedy, and backtracking visits
    the candidate matches in Perl's order, which is the order Go
    documents for its (non-POSIX) regular expressions.

    Go matches UTF-8 runes, the model matches bytes.  For the patterns
    of this program the two agree: every literal and every class is
    ASCII, and [.] occurs only as [(.+)$], which accepts the rest of
    the input exactly when it is not empty and holds no newline byte
    (an ill-formed byte is decoded as one rune of width one, and a
    newline byte is never part of a longer rune). *)

Module Regexp.
Import Bytes.

Inductive regex : Type :=
| Empty
| Bol                          (* ^ *)
| Eol                          (* $ without the m flag: end of text *)
| Lit (c : ascii)
| Class (f : ascii -> bool)    (* [...] *)
| AnyNotNL                     (* . without the s flag *)
| Cat (r1 r2 : regex)
| Alt (r1 r2 : regex)
| Star (r : regex)
| Group (i : nat) (r : regex). (* the i-th capturing group *)

(** [r+], [r?] and a literal string. *)
Definition Plus (r : regex) : regex := Cat r (Star r).
Definition Quest (r : regex) : regex := Alt r Empty.
Fixpoint lits (s : string) : regex :=
  match s with
  | EmptyString => Empty
  | String c s' => Cat (Lit c) (lits s')
  end.

Definition newline : ascii := "010"%char.

(** The submatches, indexed by group; index 0 is the whole match. *)
Abbreviation captures := (list string).
Abbreviation cont := (nat -> string -> captures -> option captures).

(** Greedy iteration: one more round of [body] is preferred to leaving
    the loop.  A round that consumes nothing is not repeated; [fuel]
    is the length of the input, which every round shortens. *)
Fixpoint star_loop (body : nat -> string -> captures -> cont -> option captures)
    (k : cont) (fuel : nat) (pos : nat) (s : string) (caps : captures)
    : option captures :=
  match fuel with
  | O => k pos s caps
  | S fuel' =>
      match body pos s caps
              (fun pos' s' caps' =>
                 if (len s' <? len s)%nat
                 then star_loop body k fuel' pos' s' caps' else None) with
      | Some m => Some m
      | None => k pos s caps
      end
  end.

(** [backtrack r pos s caps k]: match [r] at offset [pos], where the
    rest of the input is [s], then continue with [k]. *)
Fixpoint backtrack (r : regex) (pos : nat) (s : string) (caps : captures)
    (k : cont) : option captures :=
  match r with
  | Empty => k pos s caps
  | Bol => if (pos =? 0)%nat then k pos s caps else None
  | Eol => match s with EmptyString => k pos s caps | String _ _ => None end
  | Lit c =>
      match s with
      | String a s' => if Ascii.eqb a c then k (S pos) s' caps else None
      | EmptyString => None
      end
  | Class f =>
      match s with
      | String a s' => if f a then k (S pos) s' caps else None
      | EmptyString => None
      end
  | AnyNotNL =>
      match s with
      | String a s' => if Ascii.eqb a newline then None else k (S pos) s' caps
      | EmptyString => None
      end
  | Cat r1 r2 =>
      backtrack r1 pos s caps (fun pos' s' caps' => backtrack r2 pos' s' caps' k)
  | Alt r1 r2 =>
      match backtrack r1 pos s caps k with
      | Some m => Some m
      | None => backtrack r2 pos s caps k
      end
  | Star r1 => star_loop (backtrack r1) k (len s) pos s caps
  | Group i r1 =>
      backtrack r1 pos s caps
        (fun pos' s' caps' => k pos' s' (<[i:=consumed s s']> caps'))
  end.

(** A compiled expression: its program and [NumSubexp]. *)
Record Regexp : Type := MkRegexp { prog : regex; NumSubexp : nat }.

(** One attempt at offset [pos]; an unmatched group is the empty string. *)
Definition match_at (re : Regexp) (pos : nat) (s : string) : option captures :=
  backtrack (prog re) pos s (replicate (S (NumSubexp re)) "")
    (fun _ s' caps => Some (<[0%nat:=consumed s s']> caps)).

(** The leftmost match: the offsets are tried from left to right. *)
Fixpoint search (re : Regexp) (pos : nat) (s : string) : option captures :=
  match match_at re pos s with
  | Some m => Some m
  | None =>
      match s with
      | EmptyString => None
      | String _ s' => search re (S pos) s'
      end
  end.

(** [re.FindStringSubmatch(s)]: [None] is Go's nil slice. *)
Definition FindStringSubmatch (re : Regexp) (s : string) : option captures :=
  search re 0 s.

(** *** What a match is

    [matches r pos s caps pos' s' caps']: [r] can consume the input
    from [s] (at offset [pos]) to its suffix [s'], turning the
    submatches [caps] into [caps']. *)
Inductive matches : regex -> nat -> string -> captures ->
                    nat -> string -> captures -> Prop :=
| M_Empty pos s caps : matches Empty pos s caps pos s caps
| M_Bol s caps : matches Bol 0 s caps 0 s caps
| M_Eol pos caps : matches Eol pos "" caps pos "" caps
| M_Lit c pos s caps : matches (Lit c) pos (String c s) caps (S pos) s caps
| M_Class f c pos s caps :
    f c = true -> matches (Class f) pos (String c s) caps (S pos) s caps
| M_Any c pos s caps :
    c <> newline -> matches AnyNotNL pos (String c s) caps (S pos) s caps
| M_Cat r1 r2 p s c p1 s1 c1 p2 s2 c2 :
    matches r1 p s c p1 s1 c1 -> matches r2 p1 s1 c1 p2 s2 c2 ->
    matches (Cat r1 r2) p s c p2 s2 c2
| M_AltL r1 r2 p s c p1 s1 c1 :
    matches r1 p s c p1 s1 c1 -> matches (Alt r1 r2) p s c p1 s1 c1
| M_AltR r1 r2 p s c p1 s1 c1 :
    matches r2 p s c p1 s1 c1 -> matches (Alt r1 r2) p s c p1 s1 c1
| M_StarNil r p s c : matches (Star r) p s c p s c
| M_StarCons r p s c p1 s1 c1 p2 s2 c2 :
    matches r p s c p1 s1 c1 -> (len s1 < len s)%nat ->
    matches (Star r) p1 s1 c1 p2 s2 c2 ->
    matches (Star r) p s c p2 s2 c2
| M_Group i r p s c p1 s1 c1 :
    matches r p s c p1 s1 c1 ->
    matches (Group i r) p s c p1 s1 (<[i:=consumed s s1]> c1).

Create HintDb regexp.
#[export] Hint Constructors matches : regexp.

Ltac invert H := inversion H; subst; clear H.

(** Whatever the matcher returns was handed to the continuation at the
    end of a match. *)
Lemma star_loop_sound r :
  (forall p s c k m, backtrack r p s c k = Some m ->
     exists p1 s1 c1, matches r p s c p1 s1 c1 /\ k p1 s1 c1 = Some m) ->
  forall fuel p s c k m, star_loop (backtrack r) k fuel p s c = Some m ->
    exists p1 s1 c1, matches (Star r) p s c p1 s1 c1 /\ k p1 s1 c1 = Some m.
Proof.
  intros IHr fuel. induction fuel as [|fuel IH]; intros p s c k m H; simpl in H.
  - eauto 6 with regexp.
  - destruct (backtrack r p s c _) as [m0|] eqn:Hb.
    + invert H. apply IHr in Hb as (p1 & s1 & c1 & Hm & Hk).
      destruct (Nat.ltb_spec (len s1) (len s)) as [Hlt|]; [|done].
      apply IH in Hk as (p2 & s2 & c2 & Hm2 & Hk2).
      eauto 8 with regexp.
    + eauto 6 with regexp.
Qed.

Lemma backtrack_sound r :
  forall p s c k m, backtrack r p s c k = Some m ->
    exists p1 s1 c1, matches r p s c p1 s1 c1 /\ k p1 s1 c1 = Some m.
Proof.
  induction r as [| | |a|f| |r1 IH1 r2 IH2|r1 IH1 r2 IH2|r IH|i r IH];
    intros p s c k m H; simpl in H.
  - eauto 6 with regexp.
  - destruct p; [|done]. eauto 6 with regexp.
  - destruct s; [|done]. eauto 6 with regexp.
  - destruct s as [|b s]; [done|].
    destruct (Ascii.eqb_spec b a) as [->|]; [|done]. eauto 6 with regexp.
  - destruct s as [|b s]; [done|].
    destruct (f b) eqn:Hf; [|done]. eauto 6 with regexp.
  - destruct s as [|b s]; [done|].
    destruct (Ascii.eqb_spec b newline) as [|Hne]; [done|]. eauto 6 with regexp.
  - apply IH1 in H as (p1 & s1 & c1 & Hm1 & H).
    apply IH2 in H as (p2 & s2 & c2 & Hm2 & H). eauto 8 with regexp.
  - destruct (backtrack r1 p s c k) as [m0|] eqn:Hb.
    + invert H. apply IH1 in Hb as (p1 & s1 & c1 & Hm1 & H). eauto 6 with regexp.
    + apply IH2 in H as (p1 & s1 & c1 & Hm1 & H). eauto 6 with regexp.
  - by apply star_loop_sound in H.
  - apply IH in H as (p1 & s1 & c1 & Hm1 & H). eauto 6 with regexp.
Qed.

(** A match that the continuation accepts makes the matcher succeed
    (with that match or with one it prefers). *)
Lemma star_loop_complete r :
  (forall p s c p1 s1 c1, matches r p s c p1 s1 c1 ->
     forall k m, k p1 s1 c1 = Some m -> exists m', backtrack r p s c k = Some m') ->
  forall p s c p2 s2 c2, matches (Star r) p s c p2 s2 c2 ->
  forall fuel k m, (len s <= fuel)%nat -> k p2 s2 c2 = Some m ->
    exists m', star_loop (backtrack r) k fuel p s c = Some m'.
Proof.
  intros IHr p s c p2 s2 c2 H. remember (Star r) as sr eqn:Hsr.
  induction H as [| | | | | | | | |r' p s c|r' p s c p1 s1 c1 p2 s2 c2 H1 _ Hlt H2 IH2|];
    try discriminate; invert Hsr; intros fuel k m Hfuel Hk.
  - destruct fuel as [|fuel]; simpl; [eauto|].
    destruct (backtrack r p s c _); eauto.
  - destruct fuel as [|fuel]; [lia|]. simpl.
    destruct (IH2 eq_refl fuel k m ltac:(lia) Hk) as [m' Hm'].
    edestruct (IHr _ _ _ _ _ _ H1) as [m'' ->]; [|eauto].
    simpl. destruct (Nat.ltb_spec (len s1) (len s)); [|lia]. exact Hm'.
Qed.

Lemma backtrack_complete r :
  forall p s c p1 s1 c1, matches r p s c p1 s1 c1 ->
    forall k m, k p1 s1 c1 = Some m -> exists m', backtrack r p s c k = Some m'.
Proof.
  induction r as [| | |a|f| |r1 IH1 r2 IH2|r1 IH1 r2 IH2|r IH|i r IH];
    intros p s c p1 s1 c1 H k m Hk.
  - invert H. simpl. eauto.
  - invert H. simpl. eauto.
  - invert H. simpl. eauto.
  - invert H. simpl. rewrite Ascii.eqb_refl. eauto.
  - invert H. simpl.
    match goal with Hf : f _ = true |- _ => rewrite Hf end. eauto.
  - invert H. simpl. destruct (Ascii.eqb_spec c0 newline); [done|eauto].
  - invert H. simpl.
    match goal with
    | Ha : matches r1 _ _ _ _ _ _, Hb : matches r2 _ _ _ _ _ _ |- _ =>
        destruct (IH2 _ _ _ _ _ _ Hb k m Hk) as [m2 Hm2];
        exact (IH1 _ _ _ _ _ _ Ha _ m2 Hm2)
    end.
  - simpl. destruct (backtrack r1 p s c k) eqn:Hb; [eauto|].
    invert H; [|eauto].
    match goal with
    | Ha : matches r1 _ _ _ _ _ _ |- _ =>
        destruct (IH1 _ _ _ _ _ _ Ha k m Hk) as [m1 Hm1]; congruence
    end.
  - simpl. eapply star_loop_complete; eauto.
  - invert H. simpl.
    match goal with
    | Ha : matches r _ _ _ _ _ _ |- _ => exact (IH _ _ _ _ _ _ Ha _ m Hk)
    end.
Qed.

(** *** Matches of literals, of classes and of their iterations *)

Lemma matches_lits_inv t :
  forall p s c p1 s1 c1, matches (lits t) p s c p1 s1 c1 ->
    s = t +:+ s1 /\ c1 = c /\ p1 = (p + len t)%nat.
Proof.
  induction t as [|a t IH]; intros p s c p1 s1 c1 H; simpl in H.
  - invert H. auto with lia.
  - invert H.
    match goal with
    | Ha : matches (Lit _) _ _ _ _ _ _, Hb : matches (lits _) _ _ _ _ _ _ |- _ =>
        invert Ha; apply IH in Hb as (-> & -> & ->)
    end.
    rewrite sapp_cons. simpl. auto with lia.
Qed.

Lemma matches_lits_intro t p s1 c :
  matches (lits t) p (t +:+ s1) c (p + len t)%nat s1 c.
Proof.
  revert p. induction t as [|a t IH]; intros p; simpl.
  - rewrite Nat.add_0_r. constructor.
  - rewrite sapp_cons. econstructor; [constructor|].
    replace (p + S (len t))%nat with (S p + len t)%nat by lia. apply IH.
Qed.

Section star_of_single.
Variables (r : regex) (f : ascii -> bool).
Hypothesis r_inv : forall p s c p1 s1 c1, matches r p s c p1 s1 c1 ->
  exists a, s = String a s1 /\ f a = true /\ c1 = c /\ p1 = S p.
Hypothesis r_intro : forall a p s c,
  f a = true -> matches r p (String a s) c (S p) s c.

Lemma matches_star_inv p s c p1 s1 c1 :
  matches (Star r) p s c p1 s1 c1 ->
  exists t, s = t +:+ s1 /\ all f t = true /\ c1 = c /\ p1 = (p + len t)%nat.
Proof.
  intros H. remember (Star r) as sr eqn:Hsr.
  induction H as [| | | | | | | | |r' p s c|r' p s c p1 s1 c1 p2 s2 c2 H1 _ _ _ IH2|];
    try discriminate; invert Hsr.
  - exists "". auto with lia.
  - apply r_inv in H1 as (a & -> & Hf & -> & ->).
    destruct (IH2 eq_refl) as (t & -> & Ht & -> & ->).
    exists (String a t). rewrite sapp_cons. simpl. rewrite Hf, Ht. auto with lia.
Qed.

Lemma matches_star_intro t p s1 c :
  all f t = true -> matches (Star r) p (t +:+ s1) c (p + len t)%nat s1 c.
Proof.
  revert p. induction t as [|a t IH]; intros p Ht; simpl in *.
  - rewrite Nat.add_0_r. constructor.
  - apply andb_prop in Ht as [Ha Ht]. rewrite sapp_cons.
    eapply M_StarCons; [by apply r_intro| simpl; lia |].
    replace (p + S (len t))%nat with (S p + len t)%nat by lia. by apply IH.
Qed.

Lemma matches_plus_inv p s c p1 s1 c1 :
  matches (Plus r) p s c p1 s1 c1 ->
  exists a t, s = String a t +:+ s1 /\ f a = true /\ all f t = true /\
              c1 = c /\ p1 = (p + S (len t))%nat.
Proof.
  intros H. invert H.
  match goal with
  | Ha : matches r _ _ _ _ _ _, Hb : matches (Star r) _ _ _ _ _ _ |- _ =>
      apply r_inv in Ha as (a & -> & Hf & -> & ->);
      apply matches_star_inv in Hb as (t & -> & Ht & -> & ->)
  end.
  exists a, t. rewrite sapp_cons. auto with lia.
Qed.

Lemma matches_plus_intro a t p s1 c :
  f a = true -> all f t = true ->
  matches (Plus r) p (String a t +:+ s1) c (p + S (len t))%nat s1 c.
Proof.
  intros Ha Ht. rewrite sapp_cons. econstructor; [by apply r_intro|].
  replace (p + S (len t))%nat with (S p + len t)%nat by lia.
  by apply matches_star_intro.
Qed.

End star_of_single.

Lemma class_inv f p s c p1 s1 c1 :
  matches (Class f) p s c p1 s1 c1 ->
  exists a, s = String a s1 /\ f a = true /\ c1 = c /\ p1 = S p.
Proof. intros H. invert H. eauto. Qed.

Lemma class_intro f a p s c :
  f a = true -> matches (Class f) p (String a s) c (S p) s c.
Proof. by constructor. Qed.

Definition not_newline (a : ascii) : bool := negb (Ascii.eqb a newline).

Lemma any_inv p s c p1 s1 c1 :
  matches AnyNotNL p s c p1 s1 c1 ->
  exists a, s = String a s1 /\ not_newline a = true /\ c1 = c /\ p1 = S p.
Proof.
  intros H. invert H. eexists; split_and!; try done.
  unfold not_newline. by destruct (Ascii.eqb_spec c0 newline).
Qed.

Lemma any_intro a p s c :
  not_newline a = true -> matches AnyNotNL p (String a s) c (S p) s c.
Proof.
  unfold not_newline. intros Ha. constructor.
  by destruct (Ascii.eqb_spec a newline).
Qed.

End Regexp.

Import Bytes Regexp.

(** ** The storage URL patterns ([main.go], lines 53-75) *)

Definition is_lower (a : ascii) : bool :=
  let n := N_of_ascii a in (97 <=? n)%N && (n <=? 122)%N.
Definition is_digit (a : ascii) : bool :=
  let n := N_of_ascii a in (48 <=? n)%N && (n <=? 57)%N.

(** [[a-z0-9]] and [[-_.a-z0-9]]. *)
Definition bucket_first (a : ascii) : bool := is_lower a || is_digit a.
Definition bucket_rest (a : ascii) : bool :=
  Ascii.eqb a "-" || Ascii.eqb a "_" || Ascii.eqb a "." || is_lower a || is_digit a.

(** [bucket]: the first capturing group, one of [a-z0-9] followed by
    any number of [-_.a-z0-9] (greedy). *)
Definition bucket : regex :=
  Group 1 (Cat (Class bucket_first) (Star (Class bucket_rest))).

(** [object]: the second capturing group, one or more of [.] (greedy). *)
Definition object : regex := Group 2 (Plus AnyNotNL).

(** [fmt.Sprintf(`^<pre>%s<mid>%s$`, bucket, object)]. *)
Definition url_pattern (pre : regex) (mid : string) : regex :=
  Cat Bol (Cat pre (Cat bucket (Cat (lits mid) (Cat object Eol)))).

(** [http[s]?]. *)
Definition http_s : regex :=
  Cat (lits "http") (Quest (Class (fun a => Ascii.eqb a "s"))).

(** [`^gs://%s/%s$`]. *)
Definition gsRegex : Regexp :=
  MkRegexp (url_pattern (lits "gs://") "/") 2.

(** [`^http[s]?://%s\.storage\.googleapis\.com/%s$`]. *)
Definition gsHTTPRegex1 : Regexp :=
  MkRegexp (url_pattern (Cat http_s (lits "://")) ".storage.googleapis.com/") 2.

(** [`^http[s]?://storage\.cloud\.google\.com/%s/%s$`]. *)
Definition gsHTTPRegex2 : Regexp :=
  MkRegexp (url_pattern (Cat http_s (lits "://storage.cloud.google.com/")) "/") 2.

(** [`^http[s]?://(?:commondata)?storage\.googleapis\.com/%s/%s$`]. *)
Definition gsHTTPRegex3 : Regexp :=
  MkRegexp
    (url_pattern
       (Cat http_s (Cat (lits "://")
          (Cat (Quest (lits "commondata")) (lits "storage.googleapis.com/"))))
       "/") 2.

(** [len(match) == 3]: a nil slice has length 0. *)
Definition match_len (m : option (list string)) : nat :=
  match m with
  | Some l => length l
  | None => 0%nat
  end.

(** [match[i]] of a slice that is long enough. *)
Definition match_nth (m : option (list string)) (i : nat) : string :=
  match m with
  | Some l => nth i l ""
  | None => ""
  end.

Fixpoint findMatch_range (res : list Regexp) (path : string) : string * string :=
  match res with
  | [] => ("", "")
  | re :: res' =>
      let m := FindStringSubmatch re path in
      if (match_len m =? 3)%nat then (match_nth m 1, match_nth m 2)
      else findMatch_range res' path
  end.

Definition findMatch (path : string) : string * string :=
  findMatch_range [gsRegex; gsHTTPRegex1; gsHTTPRegex2; gsHTTPRegex3] path.


(** ** The script records ([main.go], lines 77-89) *)

(** [type metadataScriptType int] with its four constants. *)
Abbreviation metadataScriptType := Z.
Definition ps1 : metadataScriptType := 0.
Definition cmd : metadataScriptType := 1.
Definition bat : metadataScriptType := 2.
Definition url : metadataScriptType := 3.

Record metadataScript : Type := MkScript {
  Type_ : metadataScriptType;
  Script : string;
  Metadata : string
}.

(** ** Errors and the outside world *)

(** The error values the program handles.  [ExitError] is
    [*exec.ExitError]; [LibError] stands for every other error that a
    library call returns; the remaining ones are the program's own
    [fmt.Errorf] values, kept with their arguments. *)
Inductive error : Type :=
| ExitError (status : Z)
| LibError (msg : string)
| ErrScriptType (path parsed : string)   (* "error getting script type from url path ..." *)
| ErrUnknownType (script : string)       (* "unknown script type: ..." *)
| ErrCreateClient (cause : string)       (* "failed to create client: ..." *)
| ErrNoValidArgs.                        (* "No valid arguments specified. ..." *)

Inductive result (A : Type) : Type :=
| Ok (a : A)
| Err (e : error).
Arguments Ok {A} a.
Arguments Err {A} e.

(** What the outside world answers to a call: a value or a failure
    (always a library error, never an [ExitError]). *)
Inductive reply (A : Type) : Type :=
| Done (a : A)
| Failed (msg : string).
Arguments Done {A} a.
Arguments Failed {A} msg.

Definition to_result {A : Type} (r : reply A) : result A :=
  match r with
  | Done a => Ok a
  | Failed msg => Err (LibError msg)
  end.

(** How a started process ends, as [c.Wait()] reports it. *)
Inductive wait_reply : Type :=
| Exited (status : Z)
| WaitFailed (msg : string).

(** [c.Wait()] returns nil for status 0, an [*exec.ExitError] for any
    other status. *)
Definition wait_error (r : wait_reply) : option error :=
  match r with
  | Exited status => if status =? 0 then None else Some (ExitError status)
  | WaitFailed msg => Some (LibError msg)
  end.

(** An [*http.Response]: the status code and what reading the body gives. *)
Record Response : Type := MkResponse {
  StatusCode : Z;
  Body : reply string
}.

Inductive log_arg : Type :=
| Str (s : string)
| ErrArg (e : error).

(** The calls into package [logger] and to [fmt.Println]. *)
Inductive log_call : Type :=
| Init (name port : string)
| Infoln (args : list log_arg)
| Infof (format : string) (args : list log_arg)
| Error (args : list log_arg)
| Fatal (args : list log_arg)
| Output (calldepth : Z) (line : string)
| Println (args : list log_arg).

(** Every effect of the program, in the order it happens. *)
Inductive event : Type :=
| EvLog (c : log_call)
| EvTempDir (prefix : string)
| EvWriteFile (path content : string)
| EvPipe
| EvStart (argv : list string)
| EvWait (argv : list string)
| EvRemoveAll (path : string)
| EvNewClient
| EvNewReader (bkt obj : string)
| EvReadFrom (bkt obj : string)
| EvHttpGet (target : string)
| EvReadAll
| EvMetadataRequest (target : string) (header : string * string).

(** The state of the world: the effects so far and the temporary
    directories that exist (created and not removed). *)
Record World : Type := MkWorld {
  history : list event;
  tempdirs : gset string
}.

(** The answers of the outside world.  Each one may depend on the whole
    history, so that two calls need not get the same answer. *)
Record Env : Type := MkEnv {
  version : string;                (* the variable [version], set when linking *)
  filepath_Join : string -> string -> string;
  filepath_Dir : string -> string;
  os_TempDir : list event -> reply string;
  os_WriteFile : list event -> string -> string -> option string;
  os_Pipe : list event -> option string;
  cmd_Start : list event -> list string -> option string;
  cmd_Lines : list event -> list string -> list string;
  cmd_Wait : list event -> list string -> wait_reply;
  storage_NewClient : list event -> option string;
  obj_NewReader : list event -> string -> string -> option string;
  buf_ReadFrom : list event -> string -> string -> reply string;
  http_Get : list event -> string -> reply Response;
  client_Do : list event -> reply Response;
  json_Unmarshal : string -> reply (gmap string string)
}.

(** A computation that changes the world. *)
Definition M (A : Type) : Type := World -> A * World.

Definition ret {A : Type} (a : A) : M A := fun w => (a, w).
Definition bind {A B : Type} (c : M A) (k : A -> M B) : M B :=
  fun w => let (a, w') := c w in k a w'.

Notation "'do' x <- c ; k" := (bind c (fun x => k))
  (at level 10, x name, c at level 100, k at level 200).

(** Ask the outside world (the answer depends on the history so far). *)
Definition ask {A : Type} (oracle : list event -> A) : M A :=
  fun w => (oracle (history w), w).

Definition record_event (ev : event) : M unit :=
  fun w => (tt, MkWorld (history w ++ [ev]) (tempdirs w)).

Definition log (c : log_call) : M unit := record_event (EvLog c).

(** ** [strings.TrimSpace]

    Leading and trailing white space, as defined by Unicode, is
    removed.  On bytes: a rune of [unicode.IsSpace] is one of the
    UTF-8 sequences below, and the first (last) rune of a string is
    such a rune exactly when the string starts (ends) with its
    sequence, because Go decodes nothing but the shortest encoding. *)

Definition utf8 (bs : list Z) : string :=
  string_of_list_ascii (map (fun b => ascii_of_N (Z.to_N b)) bs).

Definition space_runes : list string :=
  [ utf8 [9]; utf8 [10]; utf8 [11]; utf8 [12]; utf8 [13]; utf8 [32];
    utf8 [194; 133];                   (* U+0085 *)
    utf8 [194; 160];                   (* U+00A0 *)
    utf8 [225; 154; 128];              (* U+1680 *)
    utf8 [226; 128; 128]; utf8 [226; 128; 129]; utf8 [226; 128; 130];
    utf8 [226; 128; 131]; utf8 [226; 128; 132]; utf8 [226; 128; 133];
    utf8 [226; 128; 134]; utf8 [226; 128; 135]; utf8 [226; 128; 136];
    utf8 [226; 128; 137]; utf8 [226; 128; 138];   (* U+2000 .. U+200A *)
    utf8 [226; 128; 168]; utf8 [226; 128; 169];   (* U+2028, U+2029 *)
    utf8 [226; 128; 175];              (* U+202F *)
    utf8 [226; 129; 159];              (* U+205F *)
    utf8 [227; 128; 128] ].            (* U+3000 *)

(** The input without its first rune, when that rune is white space. *)
Definition strip_space_prefix (s : string) : option string :=
  match filter (fun e => has_prefix e s = true) space_runes with
  | e :: _ => Some (sdrop (len e) s)
  | [] => None
  end.

(** The input without its last rune, when that rune is white space. *)
Definition strip_space_suffix (s : string) : option string :=
  match filter (fun e => has_suffix s e = true) space_runes with
  | e :: _ => Some (stake (len s - len e) s)
  | [] => None
  end.

Fixpoint trim_left (fuel : nat) (s : string) : string :=
  match fuel with
  | O => s
  | S fuel' =>
      match strip_space_prefix s with
      | Some s' => trim_left fuel' s'
      | None => s
      end
  end.

Fixpoint trim_right (fuel : nat) (s : string) : string :=
  match fuel with
  | O => s
  | S fuel' =>
      match strip_space_suffix s with
      | Some s' => trim_right fuel' s'
      | None => s
      end
  end.

Definition TrimSpace (s : string) : string :=
  let l := trim_left (len s) s in trim_right (len l) l.

(** ** [fmt.Sprintf] for a format whose only verb is one [%s] *)

Fixpoint Sprintf (format arg : string) : string :=
  match format with
  | String "%" (String "s" rest) => arg +:+ rest
  | String c rest => String c (Sprintf rest arg)
  | EmptyString => EmptyString
  end.

(** ** The program *)

(** How a call of [run] ends: it returns its [error] (nil is [None]),
    or the Go runtime panics. *)
Inductive outcome : Type :=
| Returned (err : option error)
| Panicked.

(** How a call that returns nothing ends: it returns, or a panic
    unwinds it. *)
Inductive completion : Type :=
| Completed
| Unwound.

(** How the process ends: [os.Exit] (or returning from [main], status
    0), or an unrecovered panic. *)
Inductive exit : Type :=
| ExitCode (code : Z)
| Crashed.

Definition metadataServer : string :=
  "http://metadata.google.internal/computeMetadata/v1/instance/attributes".
Definition metadataHang : string :=
  "/?recursive=true&alt=json&timeout_sec=10&last_etag=NONE".
Definition commands : list string := ["specialize"; "startup"; "shutdown"].

(** [scripts]: the key template of each script type. *)
Definition scripts : gmap Z string :=
  <[ps1:="%s-script-ps1"]> (<[cmd:="%s-script-cmd"]>
  (<[bat:="%s-script-bat"]> (<[url:="%s-script-url"]> ∅))).

(** The inner [switch sType] of [run]: the type named by the last three
    bytes of the trimmed value, [None] in the [default] case. *)
Definition script_type_of (sType : string) : option metadataScriptType :=
  if String.eqb sType "ps1" then Some ps1
  else if String.eqb sType "cmd" then Some cmd
  else if String.eqb sType "bat" then Some bat
  else None.

Section Program.
Variable E : Env.

(** *** The calls to the outside world *)

Definition ioutil_TempDir (prefix : string) : M (result string) :=
  fun w =>
    let h := history w ++ [EvTempDir prefix] in
    match os_TempDir E (history w) with
    | Done dir => (Ok dir, MkWorld h ({[dir]} ∪ tempdirs w))
    | Failed msg => (Err (LibError msg), MkWorld h (tempdirs w))
    end.

Definition ioutil_WriteFile (path content : string) : M (option error) :=
  do r <- ask (fun h => os_WriteFile E h path content);
  do _ <- record_event (EvWriteFile path content);
  ret (LibError <$> r).

(** [os.RemoveAll(path)]; its result is not looked at. *)
Definition os_RemoveAll (path : string) : M unit :=
  fun w => (tt, MkWorld (history w ++ [EvRemoveAll path]) (tempdirs w ∖ {[path]})).

Definition os_Pipe_call : M (option error) :=
  do r <- ask (os_Pipe E);
  do _ <- record_event EvPipe;
  ret (LibError <$> r).

Definition cmd_Start_call (argv : list string) : M (option error) :=
  do r <- ask (fun h => cmd_Start E h argv);
  do _ <- record_event (EvStart argv);
  ret (LibError <$> r).

Definition cmd_Wait_call (argv : list string) : M (option error) :=
  do r <- ask (fun h => cmd_Wait E h argv);
  do _ <- record_event (EvWait argv);
  ret (wait_error r).

(** *** [tempFile], [runCmd], [runBat], [runPs1] (lines 253-305) *)

Definition tempFile (name content : string) : M (string * option error) :=
  do r <- ioutil_TempDir "metadata-scripts";
  match r with
  | Err e => ret ("", Some e)
  | Ok dir =>
      let tmpFile := filepath_Join E dir name in
      do err <- ioutil_WriteFile tmpFile content;
      ret (tmpFile, err)
  end.

(** The scanner loop: every line the process writes is logged. *)
Fixpoint log_lines (name : string) (lines : list string) : M unit :=
  match lines with
  | [] => ret tt
  | line :: rest =>
      do _ <- log (Output 3 (name +:+ ": " +:+ line));
      log_lines name rest
  end.

Definition runCmd (argv : list string) (name : string) : M (option error) :=
  do perr <- os_Pipe_call;
  match perr with
  | Some e => ret (Some e)
  | None =>
      do serr <- cmd_Start_call argv;
      match serr with
      | Some e => ret (Some e)
      | None =>
          do lines <- ask (fun h => cmd_Lines E h argv);
          do _ <- log_lines name lines;
          cmd_Wait_call argv
      end
  end.

Definition runBat (ms : metadataScript) : M (option error) :=
  do r <- tempFile (Metadata ms +:+ ".bat") (Script ms);
  match r with
  | (_, Some e) => ret (Some e)
  | (tmpFile, None) =>
      do err <- runCmd [tmpFile] (Metadata ms);
      (* the deferred call *)
      do _ <- os_RemoveAll (filepath_Dir E tmpFile);
      ret err
  end.

Definition runPs1 (ms : metadataScript) : M (option error) :=
  do r <- tempFile (Metadata ms +:+ ".ps1") (Script ms);
  match r with
  | (_, Some e) => ret (Some e)
  | (tmpFile, None) =>
      do err <- runCmd ["powershell.exe"; "-NoProfile"; "-NoLogo";
                        "-ExecutionPolicy"; "Unrestricted"; "-File"; tmpFile]
                       (Metadata ms);
      (* the deferred call *)
      do _ <- os_RemoveAll (filepath_Dir E tmpFile);
      ret err
  end.

(** *** The downloaders (lines 124-172) *)

Definition downloadGSURL (bkt obj : string) : M (result string) :=
  do cerr <- ask (storage_NewClient E);
  do _ <- record_event EvNewClient;
  match cerr with
  | Some msg => ret (Err (ErrCreateClient msg))
  | None =>
      do rerr <- ask (fun h => obj_NewReader E h bkt obj);
      do _ <- record_event (EvNewReader bkt obj);
      match rerr with
      | Some msg => ret (Err (LibError msg))
      | None =>
          do data <- ask (fun h => buf_ReadFrom E h bkt obj);
          do _ <- record_event (EvReadFrom bkt obj);
          ret (to_result data)
      end
  end.

Definition downloadURL (p : string) : M (result string) :=
  do res <- ask (fun h => http_Get E h p);
  do _ <- record_event (EvHttpGet p);
  match res with
  | Failed msg => ret (Err (LibError msg))
  | Done res =>
      do _ <- record_event EvReadAll;
      ret (to_result (Body res))
  end.

Definition downloadScript (path : string) : M (result string) :=
  let (bkt, obj) := findMatch path in
  if negb (String.eqb bkt "") && negb (String.eqb obj "") then
    do r <- downloadGSURL bkt obj;
    match r with
    | Ok script => ret (Ok script)
    | Err e =>
        do _ <- log (Infof "Failed to download GCS path: %v" [ErrArg e]);
        do _ <- log (Infof "Trying unauthenticated download" [ErrArg e]);
        (* Fall back to unauthenticated download of the object. *)
        downloadURL path
    end
  else
    (* Fall back to unauthenticated download of the object. *)
    downloadURL path.

(** *** [(ms *metadataScript) run] (lines 91-122)

    [fuel] bounds the depth of the calls of [run]; [None] means that it
    ran out.  [trimmed[len(trimmed)-3 : len(trimmed)]] panics when the
    lower bound is negative. *)
Fixpoint run (fuel : nat) (ms : metadataScript) : M (option outcome) :=
  match fuel with
  | O => ret None
  | S fuel' =>
      if Type_ ms =? ps1 then
        do err <- runPs1 ms; ret (Some (Returned err))
      else if Type_ ms =? cmd then
        do err <- runBat ms; ret (Some (Returned err))
      else if Type_ ms =? bat then
        do err <- runBat ms; ret (Some (Returned err))
      else if Type_ ms =? url then
        let trimmed := TrimSpace (Script ms) in
        if (len trimmed <? 3)%nat then ret (Some Panicked)
        else
          let sType := sdrop (len trimmed - 3) trimmed in
          match script_type_of sType with
          | None => ret (Some (Returned (Some (ErrScriptType trimmed sType))))
          | Some st =>
              do r <- downloadScript trimmed;
              match r with
              | Err e => ret (Some (Returned (Some e)))
              | Ok script => run fuel' (MkScript st script (Metadata ms))
              end
          end
      else
        ret (Some (Returned (Some (ErrUnknownType (Script ms)))))
  end.

(** *** [getMetadata], [getScripts], [parseMetadata] (lines 184-235) *)

(** [http.NewRequest] is given a constant method and a constant URL
    and does not fail on them. *)
Definition getMetadata : M (result (gmap string string)) :=
  do resp <- ask (client_Do E);
  do _ <- record_event
            (EvMetadataRequest (metadataServer +:+ metadataHang)
                               ("Metadata-Flavor", "Google"));
  match resp with
  | Failed msg => ret (Err (LibError msg))
  | Done resp =>
      do _ <- record_event EvReadAll;
      match Body resp with
      | Failed msg => ret (Err (LibError msg))
      | Done md => ret (to_result (json_Unmarshal E md))
      end
  end.

(** The loop over the sorted keys. *)
Fixpoint parseMetadata_range (mdsm : gmap Z string) (md : gmap string string)
    (keys : list Z) (mdss : list metadataScript) : list metadataScript :=
  match keys with
  | [] => mdss
  | k :: keys' =>
      let st := k in
      let name := default "" (mdsm !! st) in
      match md !! name with
      | None => parseMetadata_range mdsm md keys' mdss
      | Some script =>
          if String.eqb script "" then parseMetadata_range mdsm md keys' mdss
          else parseMetadata_range mdsm md keys'
                 (mdss ++ [MkScript st script name])
      end
  end.

(** [parseMetadata] for the order [iteration] in which [range mdsm]
    happened to visit the keys; [sort.Ints] is [merge_sort]. *)
Definition parseMetadata_in (iteration : list Z) (mdsm : gmap Z string)
    (md : gmap string string) : list metadataScript :=
  let keys := merge_sort Z.le iteration in
  parseMetadata_range mdsm md keys [].

Definition parseMetadata (mdsm : gmap Z string) (md : gmap string string)
    : list metadataScript :=
  parseMetadata_in (fst <$> map_to_list mdsm) mdsm md.

Definition getScripts (mdsm : gmap Z string) : M (result (list metadataScript)) :=
  do r <- getMetadata;
  match r with
  | Err e => ret (Err e)
  | Ok md => ret (Ok (parseMetadata mdsm md))
  end.

(** *** [runScripts] (lines 237-251)

    The result says how the call ends ([None]: [fuel] ran out). *)
Fixpoint runScripts (fuel : nat) (l : list metadataScript)
    : M (option completion) :=
  match l with
  | [] => ret (Some Completed)
  | script :: rest =>
      do _ <- log (Infoln [Str "Found"; Str (Metadata script); Str "in metadata."]);
      do r <- run fuel script;
      match r with
      | None => ret None
      | Some Panicked => ret (Some Unwound)
      | Some (Returned (Some (ExitError status))) =>
          do _ <- log (Infoln [Str (Metadata script); ErrArg (ExitError status)]);
          runScripts fuel rest
      | Some (Returned None) =>
          do _ <- log (Infoln [Str (Metadata script); Str "exit status 0"]);
          runScripts fuel rest
      | Some (Returned (Some err)) =>
          do _ <- log (Error [ErrArg err]);
          runScripts fuel rest
      end
  end.

(** *** [validateArgs] and [main] (lines 307-352) *)

Fixpoint validateArgs_range (cmds : list string) (arg : string)
    : result (gmap Z string) :=
  match cmds with
  | [] => Err ErrNoValidArgs
  | command :: cmds' =>
      if String.eqb command arg then
        let command :=
          if String.eqb command "specialize" then "sysprep-" +:+ command
          else "windows-" +:+ command in
        Ok ((fun script => Sprintf script command) <$> scripts)
      else validateArgs_range cmds' arg
  end.

Definition validateArgs (args : list string) : result (gmap Z string) :=
  match args with
  | [_; arg] => validateArgs_range commands arg
  | _ => Err ErrNoValidArgs
  end.

(** Modelled from the spec: package [logger] is not part of the
    sources at hand.  [logger.Fatal] logs its argument and terminates
    the process with status 1 (sections 4.5 and 6 of the
    specification); the other calls of the package only log. *)
Definition logger_Fatal (args : list log_arg) : M exit :=
  do _ <- log (Fatal args);
  ret (ExitCode 1).

Definition main (fuel : nat) (args : list string) : M (option exit) :=
  do _ <- log (Init "GCEMetadataScripts" "COM1");
  match validateArgs args with
  | Err err =>
      do _ <- log (Println [ErrArg err]);
      ret (Some (ExitCode 1))
  | Ok metadata =>
      let phase := nth 1 args "" in
      do _ <- log (Infof "Starting %s scripts (verison %s)."
                         [Str phase; Str (version E)]);
      do r <- getScripts metadata;
      match r with
      | Err err =>
          do _ <- log (Println [ErrArg err]);
          do code <- logger_Fatal [ErrArg err];
          ret (Some code)
      | Ok l =>
          if (length l =? 0)%nat then
            do _ <- log (Infof "No %s scripts to run." [Str phase]);
            ret (Some (ExitCode 0))
          else
            do c <- runScripts fuel l;
            match c with
            | None => ret None
            | Some Unwound => ret (Some Crashed)
            | Some Completed =>
                do _ <- log (Infof "Finished running %s scripts." [Str phase]);
                ret (Some (ExitCode 0))
            end
      end
  end.

End Program.

(** * The URL matcher *)

(** ** The recognized shapes, as the specification words them

    A bucket starts with a lowercase letter or a digit and goes on with
    lowercase letters, digits and [-_.]; an object is not empty (and,
    [.] being what it is, holds no newline).  A reference has a shape
    when it is one of the shape's prefixes, a bucket, the shape's
    separator and an object. *)

Definition is_bucket (b : string) : bool :=
  match b with
  | EmptyString => false
  | String a t => bucket_first a && all bucket_rest t
  end.

Definition is_object (o : string) : bool :=
  match o with
  | EmptyString => false
  | String a t => not_newline a && all not_newline t
  end.

Definition storage_url (prefixes : list string) (sep : string)
    (path b o : string) : Prop :=
  exists t, t ∈ prefixes /\ path = t +:+ b +:+ sep +:+ o /\
            is_bucket b = true /\ is_object o = true.

(** [scheme://bucket/object] *)
Definition shape_gs : string -> string -> string -> Prop :=
  storage_url ["gs://"] "/".

(** [http(s)://bucket.storage.googleapis.com/object] *)
Definition shape_subdomain : string -> string -> string -> Prop :=
  storage_url ["http://"; "https://"] ".storage.googleapis.com/".

(** [http(s)://storage.cloud.google.com/bucket/object] *)
Definition shape_cloud : string -> string -> string -> Prop :=
  storage_url ["http://storage.cloud.google.com/";
               "https://storage.cloud.google.com/"] "/".

(** [http(s)://[commondata]storage.googleapis.com/bucket/object] *)
Definition shape_apis : string -> string -> string -> Prop :=
  storage_url ["http://commondatastorage.googleapis.com/";
               "http://storage.googleapis.com/";
               "https://commondatastorage.googleapis.com/";
               "https://storage.googleapis.com/"] "/".

(** A reference that has none of the shapes. *)
Definition no_shape (shape : string -> string -> string -> Prop)
    (path : string) : Prop :=
  forall b o, ~ shape path b o.

(** ** Strings around the first slash *)

Lemma sapp_inv_tail s t u : s +:+ u = t +:+ u -> s = t.
Proof.
  revert t. induction s as [|a s IH]; intros [|b t] H.
  - done.
  - apply (f_equal len) in H. rewrite !len_app in H. simpl in H. lia.
  - apply (f_equal len) in H. rewrite !len_app in H. simpl in H. lia.
  - rewrite !sapp_cons in H. injection H as -> H. f_equal. by apply IH.
Qed.

Lemma split_at_first c x x' y y' :
  mem c x = false -> mem c x' = false ->
  x +:+ String c y = x' +:+ String c y' -> x = x' /\ y = y'.
Proof.
  revert x'. induction x as [|a x IH]; intros [|a' x'] Hx Hx' H; simpl in *.
  - rewrite !sapp_nil_l in H. by injection H.
  - rewrite sapp_nil_l, sapp_cons in H. injection H as <- _.
    by rewrite Ascii.eqb_refl in Hx'.
  - rewrite sapp_nil_l, sapp_cons in H. injection H as -> _.
    by rewrite Ascii.eqb_refl in Hx.
  - rewrite !sapp_cons in H. injection H as -> H.
    apply orb_false_elim in Hx as [_ Hx]. apply orb_false_elim in Hx' as [_ Hx'].
    destruct (IH x' Hx Hx' H) as [-> ->]. done.
Qed.

Lemma bucket_rest_no_slash t : all bucket_rest t = true -> mem "/" t = false.
Proof.
  induction t as [|a t IH]; [done|]. simpl. intros [Ha Ht]%andb_prop.
  rewrite (IH Ht), orb_false_r.
  destruct (Ascii.eqb_spec a "/") as [->|]; [|done]. by vm_compute in Ha.
Qed.

Lemma is_bucket_no_slash b : is_bucket b = true -> mem "/" b = false.
Proof.
  destruct b as [|a t]; [done|]. simpl. intros [Ha Ht]%andb_prop.
  rewrite (bucket_rest_no_slash _ Ht), orb_false_r.
  destruct (Ascii.eqb_spec a "/") as [->|]; [|done]. by vm_compute in Ha.
Qed.

Lemma stake_all s : stake (len s) s = s.
Proof. induction s as [|a s IH]; [done|]. simpl. by rewrite IH. Qed.

(** ** Matches of the bucket and of the object *)

Lemma bucket_inv p s c p1 s1 c1 :
  matches bucket p s c p1 s1 c1 ->
  exists b, is_bucket b = true /\ s = b +:+ s1 /\ c1 = <[1%nat:=b]> c /\
            p1 = (p + len b)%nat.
Proof.
  intros H. invert H.
  match goal with Hc : matches (Cat _ _) _ _ _ _ _ _ |- _ => invert Hc end.
  match goal with
  | Ha : matches (Class _) _ _ _ _ _ _, Hb : matches (Star _) _ _ _ _ _ _ |- _ =>
      apply class_inv in Ha as (a & -> & Hf & -> & ->);
      apply (matches_star_inv _ _ (class_inv bucket_rest)) in Hb
        as (t & -> & Ht & -> & ->)
  end.
  exists (String a t). rewrite <- sapp_cons, consumed_app. simpl.
  rewrite Hf, Ht. auto with lia.
Qed.

Lemma bucket_intro b p s1 c :
  is_bucket b = true ->
  matches bucket p (b +:+ s1) c (p + len b)%nat s1 (<[1%nat:=b]> c).
Proof.
  destruct b as [|a t]; [done|]. simpl. intros [Ha Ht]%andb_prop.
  pose proof (M_Group 1 (Cat (Class bucket_first) (Star (Class bucket_rest)))
                p (String a t +:+ s1) c (p + S (len t))%nat s1 c) as HG.
  rewrite consumed_app in HG. apply HG. rewrite sapp_cons.
  econstructor; [by apply class_intro|].
  replace (p + S (len t))%nat with (S p + len t)%nat by lia.
  apply (matches_star_intro _ _ (class_intro bucket_rest)); done.
Qed.

Lemma object_inv p s c p1 s1 c1 :
  matches object p s c p1 s1 c1 ->
  exists o, is_object o = true /\ s = o +:+ s1 /\ c1 = <[2%nat:=o]> c.
Proof.
  intros H. invert H.
  match goal with
  | Hp : matches (Plus _) _ _ _ _ _ _ |- _ =>
      apply (matches_plus_inv _ _ any_inv) in Hp as (a & t & -> & Ha & Ht & -> & ->)
  end.
  exists (String a t). rewrite consumed_app. simpl. rewrite Ha, Ht. auto.
Qed.

Lemma object_intro o p s1 c :
  is_object o = true ->
  exists p1, matches object p (o +:+ s1) c p1 s1 (<[2%nat:=o]> c).
Proof.
  destruct o as [|a t]; [done|]. simpl. intros [Ha Ht]%andb_prop.
  pose proof (M_Group 2 (Plus AnyNotNL) p (String a t +:+ s1) c
                (p + S (len t))%nat s1 c) as HG.
  rewrite consumed_app in HG. eexists. apply HG.
  by apply (matches_plus_intro _ _ any_intro).
Qed.

(** ** One pattern

    [pre] is the pattern's first part, [alts] the finitely many strings
    it accepts, [sep0] the text between the bucket and the slash that
    ends the separator. *)

Section url_shape.
Variables (pre : regex) (alts : list string) (sep0 : string).
Hypothesis pre_inv : forall p s c p1 s1 c1, matches pre p s c p1 s1 c1 ->
  exists t, t ∈ alts /\ s = t +:+ s1 /\ c1 = c.
Hypothesis pre_intro : forall t p s1 c,
  t ∈ alts -> exists p1, matches pre p (t +:+ s1) c p1 s1 c.
Hypothesis alts_prefix_free : forall t t' u u',
  t ∈ alts -> t' ∈ alts -> t +:+ u = t' +:+ u' -> t = t'.
Hypothesis sep0_no_slash : mem "/" sep0 = false.

Let sep : string := sep0 +:+ "/".
Let re : Regexp := MkRegexp (url_pattern pre sep) 2.

Lemma url_pattern_inv p s c p1 s1 c1 :
  matches (url_pattern pre sep) p s c p1 s1 c1 ->
  s1 = "" /\ exists b o, storage_url alts sep s b o /\
                         c1 = <[2%nat:=o]> (<[1%nat:=b]> c).
Proof.
  unfold url_pattern. intros H.
  repeat match goal with
         | Hc : matches (Cat _ _) _ _ _ _ _ _ |- _ => invert Hc
         end.
  repeat match goal with
         | Hc : matches Bol _ _ _ _ _ _ |- _ => invert Hc
         | Hc : matches Eol _ _ _ _ _ _ |- _ => invert Hc
         | Hc : matches pre _ _ _ _ _ _ |- _ =>
             apply pre_inv in Hc as (t & Ht & -> & ->)
         | Hc : matches bucket _ _ _ _ _ _ |- _ =>
             apply bucket_inv in Hc as (b & Hb & -> & -> & ->)
         | Hc : matches (lits _) _ _ _ _ _ _ |- _ =>
             apply matches_lits_inv in Hc as (-> & -> & ->)
         | Hc : matches object _ _ _ _ _ _ |- _ =>
             apply object_inv in Hc as (o & Ho & -> & ->)
         end.
  split; [done|]. exists b, o. split; [|done].
  exists t. rewrite sapp_nil_r. auto.
Qed.

Lemma url_pattern_intro s b o c :
  storage_url alts sep s b o ->
  exists p1, matches (url_pattern pre sep) 0 s c p1 ""
               (<[2%nat:=o]> (<[1%nat:=b]> c)).
Proof.
  intros (t & Ht & -> & Hb & Ho). unfold url_pattern.
  destruct (pre_intro t 0%nat (b +:+ sep +:+ o) c Ht) as [p1 Hpre].
  destruct (object_intro o (p1 + len b + len sep) "" (<[1%nat:=b]> c) Ho)
    as [p2 Hobj].
  rewrite sapp_nil_r in Hobj. exists p2.
  eapply M_Cat; [constructor|].
  eapply M_Cat; [exact Hpre|].
  eapply M_Cat; [by apply bucket_intro|].
  eapply M_Cat; [apply matches_lits_intro|].
  eapply M_Cat; [exact Hobj|]. constructor.
Qed.

Lemma storage_url_unique s b o b' o' :
  storage_url alts sep s b o -> storage_url alts sep s b' o' ->
  b = b' /\ o = o'.
Proof.
  intros (t & Ht & -> & Hb & Ho) (t' & Ht' & Heq & Hb' & Ho').
  pose proof (alts_prefix_free _ _ _ _ Ht Ht' Heq) as <-.
  apply String.app_inj in Heq. subst sep.
  rewrite !(sapp_assoc sep0), !sapp_cons, !sapp_nil_l, <- !(sapp_assoc _ sep0) in Heq.
  apply split_at_first in Heq as [Heq ->].
  - by apply sapp_inv_tail in Heq as ->.
  - by rewrite mem_app, is_bucket_no_slash, sep0_no_slash.
  - by rewrite mem_app, is_bucket_no_slash, sep0_no_slash.
Qed.

(** An anchored pattern matches at offset 0 or not at all. *)
Lemma search_anchored p s : search re (S p) s = None.
Proof. revert p. induction s as [|a s IH]; intros p; simpl; [done|apply IH]. Qed.

Lemma Find_url_pattern_sound s m :
  FindStringSubmatch re s = Some m ->
  exists b o, storage_url alts sep s b o /\ m = [s; b; o].
Proof.
  unfold FindStringSubmatch. intros H.
  assert (match_at re 0 s = Some m) as Hm.
  { destruct s as [|a s]; simpl in H; destruct (match_at re 0 _); try done.
    by rewrite search_anchored in H. }
  clear H. unfold match_at in Hm.
  apply backtrack_sound in Hm as (p1 & s1 & c1 & Hm & Hk).
  apply url_pattern_inv in Hm as (-> & b & o & Hs & ->).
  exists b, o. split; [done|]. injection Hk as <-.
  unfold consumed. simpl. by rewrite Nat.sub_0_r, stake_all.
Qed.

Lemma Find_url_pattern_complete s b o :
  storage_url alts sep s b o -> FindStringSubmatch re s = Some [s; b; o].
Proof.
  intros Hs.
  destruct (url_pattern_intro s b o (replicate 3 "") Hs) as [p1 Hm].
  destruct (backtrack_complete _ _ _ _ _ _ _ Hm
              (fun _ s' caps => Some (<[0%nat:=consumed s s']> caps)) _ eq_refl)
    as [m' Hm'].
  assert (FindStringSubmatch re s = Some m') as Hf.
  { unfold FindStringSubmatch. destruct s; simpl; unfold match_at;
      simpl NumSubexp; simpl prog; by rewrite Hm'. }
  rewrite Hf. apply Find_url_pattern_sound in Hf as (b' & o' & Hs' & ->).
  by destruct (storage_url_unique _ _ _ _ _ Hs Hs') as [-> ->].
Qed.

Lemma Find_url_pattern_none s :
  no_shape (storage_url alts sep) s -> FindStringSubmatch re s = None.
Proof.
  intros Hno. destruct (FindStringSubmatch re s) as [m|] eqn:Hf; [|done].
  apply Find_url_pattern_sound in Hf as (b & o & Hs & _). by apply Hno in Hs.
Qed.

End url_shape.

(** ** The four patterns of the program *)

Ltac break_match :=
  repeat match goal with
         | H : matches (Cat _ _) _ _ _ _ _ _ |- _ => invert H
         | H : matches (Alt _ _) _ _ _ _ _ _ |- _ => invert H
         | H : matches Empty _ _ _ _ _ _ |- _ => invert H
         | H : matches (Lit _) _ _ _ _ _ _ |- _ => invert H
         | H : matches (Class _) _ _ _ _ _ _ |- _ => invert H; cbv beta in *
         | H : Ascii.eqb _ _ = true |- _ => apply Ascii.eqb_eq in H; subst
         end.

Ltac pick_alt l :=
  lazymatch l with
  | ?x :: ?l' =>
      (exists x; split; [set_solver|split; reflexivity]) || pick_alt l'
  end.

Ltac build_match :=
  lazymatch goal with
  | |- matches (Cat _ _) _ _ _ _ _ _ => eapply M_Cat; [build_match|build_match]
  | |- matches (Alt _ _) _ _ _ _ _ _ =>
      (eapply M_AltL; build_match) + (eapply M_AltR; build_match)
  | |- matches (Lit _) _ _ _ _ _ _ => apply M_Lit
  | |- matches (Class _) _ _ _ _ _ _ => apply M_Class; reflexivity
  | |- matches Empty _ _ _ _ _ _ => apply M_Empty
  end.

Ltac solve_pre_inv :=
  let H := fresh in
  intros ? ? ? ? ? ? H; unfold http_s, Quest in H; simpl in H; break_match;
  lazymatch goal with |- exists t, t ∈ ?l /\ _ => pick_alt l end.

Ltac solve_pre_intro :=
  let H := fresh in
  intros ? ? ? ? H; set_unfold in H; destruct_or?; subst;
  try done; eexists; rewrite ?sapp_cons, ?sapp_nil_l; unfold http_s, Quest;
  simpl; build_match.

Ltac solve_prefix_free :=
  let H1 := fresh in let H2 := fresh in let H := fresh in
  intros ? ? ? ? H1 H2 H; set_unfold in H1; set_unfold in H2;
  destruct_or?; subst; try done; cbv in H; discriminate.

Lemma gs_pre_inv : forall p s c p1 s1 c1,
  matches (lits "gs://") p s c p1 s1 c1 ->
  exists t, t ∈ ["gs://"] /\ s = t +:+ s1 /\ c1 = c.
Proof. solve_pre_inv. Qed.

Lemma gs_pre_intro : forall t p s1 c,
  t ∈ ["gs://"] -> exists p1, matches (lits "gs://") p (t +:+ s1) c p1 s1 c.
Proof. solve_pre_intro. Qed.

Lemma gs_prefix_free : forall t t' u u' : string,
  t ∈ ["gs://"] -> t' ∈ ["gs://"] -> t +:+ u = t' +:+ u' -> t = t'.
Proof. solve_prefix_free. Qed.

Definition sub_pre : regex := Cat http_s (lits "://").
Definition sub_alts : list string := ["http://"; "https://"].

Lemma sub_pre_inv : forall p s c p1 s1 c1,
  matches sub_pre p s c p1 s1 c1 ->
  exists t, t ∈ sub_alts /\ s = t +:+ s1 /\ c1 = c.
Proof. unfold sub_pre, sub_alts. solve_pre_inv. Qed.

Lemma sub_pre_intro : forall t p s1 c,
  t ∈ sub_alts -> exists p1, matches sub_pre p (t +:+ s1) c p1 s1 c.
Proof. unfold sub_pre, sub_alts. solve_pre_intro. Qed.

Lemma sub_prefix_free : forall t t' u u' : string,
  t ∈ sub_alts -> t' ∈ sub_alts -> t +:+ u = t' +:+ u' -> t = t'.
Proof. unfold sub_alts. solve_prefix_free. Qed.

Definition cloud_pre : regex := Cat http_s (lits "://storage.cloud.google.com/").
Definition cloud_alts : list string :=
  ["http://storage.cloud.google.com/"; "https://storage.cloud.google.com/"].

Lemma cloud_pre_inv : forall p s c p1 s1 c1,
  matches cloud_pre p s c p1 s1 c1 ->
  exists t, t ∈ cloud_alts /\ s = t +:+ s1 /\ c1 = c.
Proof. unfold cloud_pre, cloud_alts. solve_pre_inv. Qed.

Lemma cloud_pre_intro : forall t p s1 c,
  t ∈ cloud_alts -> exists p1, matches cloud_pre p (t +:+ s1) c p1 s1 c.
Proof. unfold cloud_pre, cloud_alts. solve_pre_intro. Qed.

Lemma cloud_prefix_free : forall t t' u u' : string,
  t ∈ cloud_alts -> t' ∈ cloud_alts -> t +:+ u = t' +:+ u' -> t = t'.
Proof. unfold cloud_alts. solve_prefix_free. Qed.

Definition apis_pre : regex :=
  Cat http_s (Cat (lits "://")
    (Cat (Quest (lits "commondata")) (lits "storage.googleapis.com/"))).
Definition apis_alts : list string :=
  ["http://commondatastorage.googleapis.com/";
   "http://storage.googleapis.com/";
   "https://commondatastorage.googleapis.com/";
   "https://storage.googleapis.com/"].

Lemma apis_pre_inv : forall p s c p1 s1 c1,
  matches apis_pre p s c p1 s1 c1 ->
  exists t, t ∈ apis_alts /\ s = t +:+ s1 /\ c1 = c.
Proof. unfold apis_pre, apis_alts. solve_pre_inv. Qed.

Lemma apis_pre_intro : forall t p s1 c,
  t ∈ apis_alts -> exists p1, matches apis_pre p (t +:+ s1) c p1 s1 c.
Proof. unfold apis_pre, apis_alts. solve_pre_intro. Qed.

Lemma apis_prefix_free : forall t t' u u' : string,
  t ∈ apis_alts -> t' ∈ apis_alts -> t +:+ u = t' +:+ u' -> t = t'.
Proof. unfold apis_alts. solve_prefix_free. Qed.

(** ** [FindStringSubmatch] on each pattern *)

Section one_pattern.
Variables (re : Regexp) (shape : string -> string -> string -> Prop).
Hypothesis re_sound : forall s m, FindStringSubmatch re s = Some m ->
  exists b o, shape s b o /\ m = [s; b; o].
Hypothesis re_complete : forall s b o,
  shape s b o -> FindStringSubmatch re s = Some [s; b; o].

Lemma Find_cases path :
  (exists b o, shape path b o /\ FindStringSubmatch re path = Some [path; b; o]) \/
  (no_shape shape path /\ FindStringSubmatch re path = None).
Proof.
  destruct (FindStringSubmatch re path) as [m|] eqn:Hf.
  - left. apply re_sound in Hf as (b & o & Hs & ->). eauto.
  - right. split; [|done]. intros b o Hs%re_complete. congruence.
Qed.

Lemma shape_unique path b o b' o' :
  shape path b o -> shape path b' o' -> b = b' /\ o = o'.
Proof. intros H%re_complete H'%re_complete. split; congruence. Qed.

End one_pattern.

Lemma Find_gs_sound s m :
  FindStringSubmatch gsRegex s = Some m ->
  exists b o, shape_gs s b o /\ m = [s; b; o].
Proof. exact (Find_url_pattern_sound (lits "gs://") ["gs://"] "" gs_pre_inv s m). Qed.

Lemma Find_gs_complete s b o :
  shape_gs s b o -> FindStringSubmatch gsRegex s = Some [s; b; o].
Proof.
  exact (Find_url_pattern_complete (lits "gs://") ["gs://"] ""
           gs_pre_inv gs_pre_intro gs_prefix_free eq_refl s b o).
Qed.

Lemma Find_subdomain_sound s m :
  FindStringSubmatch gsHTTPRegex1 s = Some m ->
  exists b o, shape_subdomain s b o /\ m = [s; b; o].
Proof.
  exact (Find_url_pattern_sound sub_pre sub_alts ".storage.googleapis.com"
           sub_pre_inv s m).
Qed.

Lemma Find_subdomain_complete s b o :
  shape_subdomain s b o -> FindStringSubmatch gsHTTPRegex1 s = Some [s; b; o].
Proof.
  exact (Find_url_pattern_complete sub_pre sub_alts ".storage.googleapis.com"
           sub_pre_inv sub_pre_intro sub_prefix_free eq_refl s b o).
Qed.

Lemma Find_cloud_sound s m :
  FindStringSubmatch gsHTTPRegex2 s = Some m ->
  exists b o, shape_cloud s b o /\ m = [s; b; o].
Proof. exact (Find_url_pattern_sound cloud_pre cloud_alts "" cloud_pre_inv s m). Qed.

Lemma Find_cloud_complete s b o :
  shape_cloud s b o -> FindStringSubmatch gsHTTPRegex2 s = Some [s; b; o].
Proof.
  exact (Find_url_pattern_complete cloud_pre cloud_alts ""
           cloud_pre_inv cloud_pre_intro cloud_prefix_free eq_refl s b o).
Qed.

Lemma Find_apis_sound s m :
  FindStringSubmatch gsHTTPRegex3 s = Some m ->
  exists b o, shape_apis s b o /\ m = [s; b; o].
Proof. exact (Find_url_pattern_sound apis_pre apis_alts "" apis_pre_inv s m). Qed.

Lemma Find_apis_complete s b o :
  shape_apis s b o -> FindStringSubmatch gsHTTPRegex3 s = Some [s; b; o].
Proof.
  exact (Find_url_pattern_complete apis_pre apis_alts ""
           apis_pre_inv apis_pre_intro apis_prefix_free eq_refl s b o).
Qed.

(** The first shape, in the order of [findMatch], that a reference has. *)
Definition first_shape (path b o : string) : Prop :=
  shape_gs path b o \/
  (no_shape shape_gs path /\ shape_subdomain path b o) \/
  (no_shape shape_gs path /\ no_shape shape_subdomain path /\
   shape_cloud path b o) \/
  (no_shape shape_gs path /\ no_shape shape_subdomain path /\
   no_shape shape_cloud path /\ shape_apis path b o).

Definition shapeless (path : string) : Prop :=
  no_shape shape_gs path /\ no_shape shape_subdomain path /\
  no_shape shape_cloud path /\ no_shape shape_apis path.

Lemma storage_url_nonempty prefixes sep path b o :
  storage_url prefixes sep path b o -> b <> "" /\ o <> "".
Proof. intros (t & _ & _ & Hb & Ho). by destruct b, o. Qed.

Ltac shape_contra :=
  match goal with
  | Hn : forall b o : string, ~ ?sh ?p b o, Hs : ?sh ?p _ _ |- _ =>
      destruct (Hn _ _ Hs)
  end.

(** The cases of the right-to-left direction below: the shape at hand
    is excluded, or it is the matched one and fixes bucket and object. *)
Ltac first_shape_cases Huniq Hne :=
  let Hd := fresh in
  intros Hd; unfold no_shape in *; decompose [and or] Hd; clear Hd; subst;
  first [ shape_contra
        | edestruct Huniq as [-> ->]; [eassumption..|reflexivity]
        | destruct Hne; congruence
        | reflexivity ].

(** C3. [findMatch] returns the bucket and the object of the first of
    the four shapes that the reference has, bucket and object being
    as the shapes want them (a bucket of the allowed characters, an
    object that is not empty), and two empty strings exactly when the
    reference has none of the shapes.  [findMatch] is a function of
    the reference alone: it does not touch the world. *)
Theorem findMatch_first_shape (path b o : string) :
  findMatch path = (b, o) <->
  first_shape path b o \/ (b = "" /\ o = "" /\ shapeless path).
Proof.
  unfold findMatch, first_shape, shapeless.
  destruct (Find_cases _ _ Find_gs_sound Find_gs_complete path)
    as [(b1 & o1 & Hs1 & Hf1)|[Hn1 Hf1]];
    cbn [findMatch_range]; rewrite Hf1; cbn [match_len match_nth length Nat.eqb nth].
  { pose proof (shape_unique _ _ Find_gs_complete path b o b1 o1) as Huniq.
    pose proof (storage_url_nonempty _ _ _ _ _ Hs1) as Hne.
    split; [intros [= <- <-]; tauto|first_shape_cases Huniq Hne]. }
  destruct (Find_cases _ _ Find_subdomain_sound Find_subdomain_complete path)
    as [(b2 & o2 & Hs2 & Hf2)|[Hn2 Hf2]];
    rewrite Hf2; cbn [match_len match_nth length Nat.eqb nth].
  { pose proof (shape_unique _ _ Find_subdomain_complete path b o b2 o2) as Huniq.
    pose proof (storage_url_nonempty _ _ _ _ _ Hs2) as Hne.
    split; [intros [= <- <-]; tauto|first_shape_cases Huniq Hne]. }
  destruct (Find_cases _ _ Find_cloud_sound Find_cloud_complete path)
    as [(b3 & o3 & Hs3 & Hf3)|[Hn3 Hf3]];
    rewrite Hf3; cbn [match_len match_nth length Nat.eqb nth].
  { pose proof (shape_unique _ _ Find_cloud_complete path b o b3 o3) as Huniq.
    pose proof (storage_url_nonempty _ _ _ _ _ Hs3) as Hne.
    split; [intros [= <- <-]; tauto|first_shape_cases Huniq Hne]. }
  destruct (Find_cases _ _ Find_apis_sound Find_apis_complete path)
    as [(b4 & o4 & Hs4 & Hf4)|[Hn4 Hf4]];
    rewrite Hf4; cbn [match_len match_nth length Nat.eqb nth].
  { pose proof (shape_unique _ _ Find_apis_complete path b o b4 o4) as Huniq.
    pose proof (storage_url_nonempty _ _ _ _ _ Hs4) as Hne.
    split; [intros [= <- <-]; tauto|first_shape_cases Huniq Hne]. }
  split; [intros [= <- <-]; tauto|].
  intros Hd; unfold no_shape in *; decompose [and or] Hd; clear Hd; subst;
    first [shape_contra|reflexivity].
Qed.

(** * The run list *)

(** The attribute name of a script type in a phase, as the
    specification gives it: [sysprep-specialize-script-<ext>] or
    [windows-<phase>-script-<ext>], with [ext] one of [ps1], [cmd],
    [bat], [url]. *)
Definition kind_ext (st : metadataScriptType) : string :=
  if st =? ps1 then "ps1"
  else if st =? cmd then "cmd"
  else if st =? bat then "bat"
  else "url".

Definition script_key (phase : string) (st : metadataScriptType) : string :=
  (if String.eqb phase "specialize" then "sysprep-" else "windows-")
    +:+ phase +:+ "-script-" +:+ kind_ext st.

(** The visit of one script type: no record when the key is absent or
    maps to the empty string, one record otherwise. *)
Definition visit (phase : string) (md : gmap string string)
    (st : metadataScriptType) : option metadataScript :=
  match md !! script_key phase st with
  | None => None
  | Some script =>
      if String.eqb script "" then None
      else Some (MkScript st script (script_key phase st))
  end.

Definition visit_in (mdsm : gmap Z string) (md : gmap string string)
    (st : metadataScriptType) : option metadataScript :=
  let name := default "" (mdsm !! st) in
  match md !! name with
  | None => None
  | Some script =>
      if String.eqb script "" then None else Some (MkScript st script name)
  end.

Lemma parseMetadata_range_omap mdsm md keys mdss :
  parseMetadata_range mdsm md keys mdss = mdss ++ omap (visit_in mdsm md) keys.
Proof.
  revert mdss. induction keys as [|k keys IH]; intros mdss; simpl.
  - by rewrite app_nil_r.
  - unfold visit_in at 1. destruct (md !! _) as [script|]; [|apply IH].
    destruct (String.eqb script ""); [apply IH|].
    by rewrite IH, <- app_assoc.
Qed.

(** [sort.Ints] makes the order of [range] irrelevant. *)
Lemma sorted_keys (iteration l : list Z) :
  iteration ≡ₚ l -> merge_sort Z.le iteration = merge_sort Z.le l.
Proof.
  intros Hp. apply (Sorted_unique Z.le).
  - apply (Sorted_merge_sort Z.le).
  - apply (Sorted_merge_sort Z.le).
  - by rewrite !merge_sort_Permutation.
Qed.

Lemma validateArgs_phase prog phase mdsm :
  validateArgs [prog; phase] = Ok mdsm ->
  phase ∈ commands /\
  mdsm = <[ps1:=script_key phase ps1]> (<[cmd:=script_key phase cmd]>
         (<[bat:=script_key phase bat]> (<[url:=script_key phase url]> ∅))).
Proof.
  unfold validateArgs, commands. cbn [validateArgs_range].
  destruct (String.eqb_spec "specialize" phase) as [<-|_].
  { intros [= <-]. split; [set_solver|]. vm_compute. reflexivity. }
  destruct (String.eqb_spec "startup" phase) as [<-|_].
  { intros [= <-]. split; [set_solver|]. vm_compute. reflexivity. }
  destruct (String.eqb_spec "shutdown" phase) as [<-|_]; [|done].
  intros [= <-]. split; [set_solver|]. vm_compute. reflexivity.
Qed.

Lemma visit_Type phase md st r : visit phase md st = Some r -> Type_ r = st.
Proof.
  unfold visit. destruct (md !! _) as [script|]; [|done].
  destruct (String.eqb script ""); [done|]. by intros [= <-].
Qed.

(** C1. For every phase that [validateArgs] accepts and every metadata
    map, whatever the order in which [range] visits the key map, the
    run list is made by visiting the four script types in ascending
    order (ps1, cmd, bat, url), a type whose key is absent or maps to
    the empty string giving nothing and every other type exactly one
    record.  In particular, when the ps1 key and the cmd key are both
    populated, the run list starts with the ps1 record, followed by the
    cmd record, and no other record has one of these two types. *)
Theorem parseMetadata_kind_order (prog phase : string)
    (mdsm : gmap Z string) (md : gmap string string) (iteration : list Z) :
  validateArgs [prog; phase] = Ok mdsm ->
  iteration ≡ₚ (map_to_list mdsm).*1 ->
  parseMetadata_in iteration mdsm md = omap (visit phase md) [ps1; cmd; bat; url] /\
  parseMetadata mdsm md = omap (visit phase md) [ps1; cmd; bat; url] /\
  (forall a b,
     md !! script_key phase ps1 = Some a -> a <> "" ->
     md !! script_key phase cmd = Some b -> b <> "" ->
     exists rest,
       parseMetadata mdsm md =
         MkScript ps1 a (script_key phase ps1) ::
         MkScript cmd b (script_key phase cmd) :: rest /\
       Forall (fun r => Type_ r = bat \/ Type_ r = url) rest).
Proof.
  intros [Hphase ->]%validateArgs_phase Hperm.
  assert (forall it, it ≡ₚ (map_to_list
            (<[ps1:=script_key phase ps1]> (<[cmd:=script_key phase cmd]>
            (<[bat:=script_key phase bat]> (<[url:=script_key phase url]>
               (∅ : gmap Z string)))))).*1 ->
          parseMetadata_in it
            (<[ps1:=script_key phase ps1]> (<[cmd:=script_key phase cmd]>
            (<[bat:=script_key phase bat]> (<[url:=script_key phase url]> ∅)))) md
          = omap (visit phase md) [ps1; cmd; bat; url]) as Hin.
  { intros it Hit. unfold parseMetadata_in.
    rewrite (sorted_keys _ _ Hit), parseMetadata_range_omap.
    replace (merge_sort Z.le _) with [ps1; cmd; bat; url] by (vm_compute; reflexivity).
    reflexivity. }
  assert (parseMetadata
      (<[ps1:=script_key phase ps1]> (<[cmd:=script_key phase cmd]>
      (<[bat:=script_key phase bat]> (<[url:=script_key phase url]> ∅)))) md
      = omap (visit phase md) [ps1; cmd; bat; url]) as Hall.
  { unfold parseMetadata. by apply Hin. }
  split; [by apply Hin|]. split; [exact Hall|].
  intros a b Ha Hane Hb Hbne. rewrite Hall.
  exists (omap (visit phase md) [bat; url]). split.
  - cbn [omap list_omap]. unfold visit at 1 2. rewrite Ha, Hb.
    destruct (String.eqb_spec a ""); [done|].
    destruct (String.eqb_spec b ""); [done|]. reflexivity.
  - apply Forall_forall. intros r (st & Hst & Hr)%list_elem_of_omap.
    apply visit_Type in Hr as ->.
    apply elem_of_cons in Hst as [->|Hst]; [by left|].
    apply elem_of_cons in Hst as [->|Hst]; [by right|].
    by apply elem_of_nil in Hst.
Qed.

Definition startup_keys : gmap Z string :=
  <[ps1:="windows-startup-script-ps1"]> (<[cmd:="windows-startup-script-cmd"]>
  (<[bat:="windows-startup-script-bat"]> (<[url:="windows-startup-script-url"]> ∅))).

Definition both_md : gmap string string :=
  <["windows-startup-script-cmd":="echo hi"]>
  (<["windows-startup-script-ps1":="Write-Output hi"]> ∅).

(** The startup phase with both keys populated and a shuffled [range]. *)
Lemma parseMetadata_kind_order_witness :
  validateArgs ["GCEMetadataScripts.exe"; "startup"] = Ok startup_keys /\
  parseMetadata_in [url; cmd; ps1; bat] startup_keys both_md =
    [MkScript ps1 "Write-Output hi" "windows-startup-script-ps1";
     MkScript cmd "echo hi" "windows-startup-script-cmd"].
Proof.
  assert (validateArgs ["GCEMetadataScripts.exe"; "startup"] = Ok startup_keys)
    as Hargs by (vm_compute; reflexivity).
  split; [exact Hargs|].
  destruct (parseMetadata_kind_order "GCEMetadataScripts.exe" "startup"
              startup_keys both_md [url; cmd; ps1; bat] Hargs) as (-> & _ & _).
  - vm_compute. solve_Permutation.
  - vm_compute. reflexivity.
Defined.

(** * Concrete worlds *)

(** An environment in which every call succeeds, but for the answers
    given as arguments. *)
Definition dir_of (sep : ascii) : string -> string :=
  fix go (p : string) : string :=
    match p with
    | EmptyString => EmptyString
    | String c rest => if mem sep rest then String c (go rest) else EmptyString
    end.

Definition scripted (tempdir : reply string) (write : option string)
    (wait : wait_reply) (read : reply string) (get : reply Response)
    (attributes : reply (gmap string string)) : Env :=
  {| version := "4.1.2";
     filepath_Join := fun d n => d +:+ "\" +:+ n;
     filepath_Dir := dir_of "\";
     os_TempDir := fun _ => tempdir;
     os_WriteFile := fun _ _ _ => write;
     os_Pipe := fun _ => None;
     cmd_Start := fun _ _ => None;
     cmd_Lines := fun _ _ => ["hi"];
     cmd_Wait := fun _ _ => wait;
     storage_NewClient := fun _ => None;
     obj_NewReader := fun _ _ _ => None;
     buf_ReadFrom := fun _ _ _ => read;
     http_Get := fun _ _ => get;
     client_Do := fun _ => Done (MkResponse 200 (Done "{}"));
     json_Unmarshal := fun _ => attributes |}.

Definition nothing_yet : World := MkWorld [] ∅.
Definition a_tempdir : string := "C:\Temp\metadata-scripts042".

(** * The downloaders *)

(** The targets of the HTTP GETs and the objects read from storage, in
    the order of the calls. *)
Definition http_gets (h : list event) : list string :=
  omap (fun ev => match ev with EvHttpGet p => Some p | _ => None end) h.

Definition storage_reads (h : list event) : list (string * string) :=
  omap (fun ev => match ev with EvNewReader b o => Some (b, o) | _ => None end) h.

Lemma http_gets_app h1 h2 : http_gets (h1 ++ h2) = http_gets h1 ++ http_gets h2.
Proof. apply omap_app. Qed.

Lemma storage_reads_app h1 h2 :
  storage_reads (h1 ++ h2) = storage_reads h1 ++ storage_reads h2.
Proof. apply omap_app. Qed.

Section Download.
Variable E : Env.

(** What [downloadURL] does, by the answer to its GET. *)
Lemma downloadURL_eq p w :
  downloadURL E p w =
    match http_Get E (history w) p with
    | Failed msg =>
        (Err (LibError msg), MkWorld (history w ++ [EvHttpGet p]) (tempdirs w))
    | Done res =>
        (to_result (Body res),
         MkWorld ((history w ++ [EvHttpGet p]) ++ [EvReadAll]) (tempdirs w))
    end.
Proof.
  unfold downloadURL, bind, ask, record_event, ret. simpl.
  by destruct (http_Get E (history w) p).
Qed.

(** C10. Whatever the status code of the response, when the GET
    completes and its body can be read, [downloadURL] returns the body
    as the script text; it reports an error only when the request
    itself failed or when reading the body failed. *)
Theorem downloadURL_any_status (p : string) (w : World) :
  (forall code data,
     http_Get E (history w) p = Done (MkResponse code (Done data)) ->
     fst (downloadURL E p w) = Ok data) /\
  (forall e, fst (downloadURL E p w) = Err e ->
     (exists msg, http_Get E (history w) p = Failed msg /\ e = LibError msg) \/
     exists code msg,
       http_Get E (history w) p = Done (MkResponse code (Failed msg)) /\
       e = LibError msg).
Proof.
  rewrite downloadURL_eq. split.
  - intros code data ->. reflexivity.
  - intros e. destruct (http_Get E (history w) p) as [[code [data|msg]]|msg];
      simpl; intros [= <-]; eauto 6.
Qed.

Lemma downloadURL_gets p w :
  http_gets (history (snd (downloadURL E p w))) = http_gets (history w) ++ [p] /\
  storage_reads (history (snd (downloadURL E p w))) = storage_reads (history w).
Proof.
  rewrite downloadURL_eq. destruct (http_Get E (history w) p); simpl;
    rewrite ?http_gets_app, ?storage_reads_app; simpl;
    by rewrite ?app_nil_r.
Qed.

End Download.

(** A GET answered by status 404 with an error page. *)
Lemma downloadURL_any_status_witness :
  fst (downloadURL
         (scripted (Done a_tempdir) None (Exited 0) (Done "")
            (Done (MkResponse 404 (Done "<h1>Not Found</h1>"))) (Done ∅))
         "http://example.com/missing.ps1" nothing_yet)
  = Ok "<h1>Not Found</h1>".
Proof.
  apply (proj1 (downloadURL_any_status _ "http://example.com/missing.ps1"
                  nothing_yet) 404).
  reflexivity.
Defined.

Section Fetcher.
Variable E : Env.

(** The world after the two log lines that announce the fallback. *)
Definition fallback_logged (e : error) (w : World) : World :=
  MkWorld (history w ++ [EvLog (Infof "Failed to download GCS path: %v" [ErrArg e]);
                         EvLog (Infof "Trying unauthenticated download" [ErrArg e])])
          (tempdirs w).

Lemma downloadGSURL_no_get bkt obj w :
  http_gets (history (snd (downloadGSURL E bkt obj w))) = http_gets (history w) /\
  exists n, storage_reads (history (snd (downloadGSURL E bkt obj w)))
            = storage_reads (history w) ++ replicate n (bkt, obj) /\ (n <= 1)%nat.
Proof.
  unfold downloadGSURL, bind, ask, record_event, ret. simpl.
  destruct (storage_NewClient E (history w)); simpl.
  { rewrite http_gets_app, storage_reads_app. simpl. rewrite !app_nil_r.
    split; [done|]. exists 0%nat. simpl. rewrite app_nil_r. auto with lia. }
  destruct (obj_NewReader E _ bkt obj); simpl;
    rewrite ?http_gets_app, ?storage_reads_app; simpl; rewrite ?app_nil_r;
    (split; [done|]); exists 1%nat; rewrite <- ?app_assoc; auto with lia.
Qed.

Lemma downloadScript_matched path bkt obj w :
  findMatch path = (bkt, obj) -> bkt <> "" -> obj <> "" ->
  downloadScript E path w =
    match downloadGSURL E bkt obj w with
    | (Ok script, w1) => (Ok script, w1)
    | (Err e, w1) => downloadURL E path (fallback_logged e w1)
    end.
Proof.
  intros Hm Hb Ho. unfold downloadScript. rewrite Hm.
  destruct (String.eqb_spec bkt ""); [done|].
  destruct (String.eqb_spec obj ""); [done|]. simpl.
  unfold bind at 1. destruct (downloadGSURL E bkt obj w) as [[script|e] w1]; [done|].
  unfold log, bind, record_event, fallback_logged. simpl.
  by rewrite <- app_assoc.
Qed.

Lemma downloadScript_unmatched path w :
  findMatch path = ("", "") -> downloadScript E path w = downloadURL E path w.
Proof. intros Hm. unfold downloadScript. by rewrite Hm. Qed.

(** C4. When the matcher finds a bucket and an object and the
    authenticated read fails, [downloadScript] logs the failure and
    makes one GET, of the reference itself as it was given; when the
    matcher finds nothing it makes that GET at once.  In both cases the
    result of [downloadScript] is the result of the GET (its error
    included), and no call is made twice: one GET, and at most one
    read from storage. *)
Theorem downloadScript_fallback (path : string) (w : World) :
  (forall bkt obj e w1,
     findMatch path = (bkt, obj) -> bkt <> "" -> obj <> "" ->
     downloadGSURL E bkt obj w = (Err e, w1) ->
     downloadScript E path w = downloadURL E path (fallback_logged e w1) /\
     http_gets (history (snd (downloadScript E path w)))
       = http_gets (history w) ++ [path] /\
     exists n, storage_reads (history (snd (downloadScript E path w)))
               = storage_reads (history w) ++ replicate n (bkt, obj) /\
               (n <= 1)%nat) /\
  (findMatch path = ("", "") ->
     downloadScript E path w = downloadURL E path w /\
     http_gets (history (snd (downloadScript E path w)))
       = http_gets (history w) ++ [path] /\
     storage_reads (history (snd (downloadScript E path w)))
       = storage_reads (history w)).
Proof.
  split.
  - intros bkt obj e w1 Hm Hb Ho Hgs.
    rewrite (downloadScript_matched _ _ _ _ Hm Hb Ho), Hgs.
    split; [done|].
    destruct (downloadGSURL_no_get bkt obj w) as (Hg & n & Hr & Hn).
    rewrite Hgs in Hg, Hr. simpl in Hg, Hr.
    destruct (downloadURL_gets E path (fallback_logged e w1)) as [-> ->].
    unfold fallback_logged. simpl.
    rewrite http_gets_app, storage_reads_app. simpl. rewrite !app_nil_r, Hg.
    split; [done|]. eauto.
  - intros Hm. rewrite (downloadScript_unmatched _ _ Hm).
    split; [done|]. apply downloadURL_gets.
Qed.

End Fetcher.

(** A recognized URL whose authenticated read is refused, while the
    plain GET of the same URL succeeds. *)
Lemma downloadScript_fallback_witness :
  let E := scripted (Done a_tempdir) None (Exited 0)
             (Failed "storage: object doesn't exist")
             (Done (MkResponse 200 (Done "echo fetched"))) (Done ∅) in
  let path := "https://storage.googleapis.com/bkt/dir/run.cmd" in
  fst (downloadScript E path nothing_yet) = Ok "echo fetched" /\
  http_gets (history (snd (downloadScript E path nothing_yet))) = [path] /\
  storage_reads (history (snd (downloadScript E path nothing_yet)))
    = [("bkt", "dir/run.cmd")].
Proof.
  intros E path.
  destruct (proj1 (downloadScript_fallback E path nothing_yet)
              "bkt" "dir/run.cmd"
              (LibError "storage: object doesn't exist")
              (snd (downloadGSURL E "bkt" "dir/run.cmd" nothing_yet)))
    as (Heq & Hg & n & Hr & Hn).
  - vm_compute. reflexivity.
  - done.
  - done.
  - vm_compute. reflexivity.
  - split; [rewrite Heq; vm_compute; reflexivity|].
    split; [rewrite Hg; reflexivity|]. vm_compute; reflexivity.
Defined.

(** * The runners *)

Section Runner.
Variable E : Env.

Lemma tempFile_eq name content w :
  tempFile E name content w =
    let h := history w ++ [EvTempDir "metadata-scripts"] in
    match os_TempDir E (history w) with
    | Failed msg => (("", Some (LibError msg)), MkWorld h (tempdirs w))
    | Done dir =>
        let tmpFile := filepath_Join E dir name in
        ((tmpFile, LibError <$> os_WriteFile E h tmpFile content),
         MkWorld (h ++ [EvWriteFile tmpFile content]) ({[dir]} ∪ tempdirs w))
    end.
Proof.
  unfold tempFile, bind, ioutil_TempDir, ioutil_WriteFile, bind, ask,
    record_event, ret.
  by destruct (os_TempDir E (history w)).
Qed.

Lemma log_lines_eq name lines w :
  log_lines name lines w =
    (tt, MkWorld (history w ++ map (fun l => EvLog (Output 3 (name +:+ ": " +:+ l))) lines)
                 (tempdirs w)).
Proof.
  revert w. induction lines as [|l lines IH]; intros w; simpl.
  - unfold ret. rewrite app_nil_r. by destruct w.
  - unfold bind, log, record_event. simpl. rewrite IH. simpl.
    by rewrite <- app_assoc.
Qed.

(** [runCmd] leaves the temporary directories alone; it first makes the
    pipe and, when it has one, starts the command it was given. *)
Lemma runCmd_frame argv name w :
  tempdirs (snd (runCmd E argv name w)) = tempdirs w /\
  exists tail,
    history (snd (runCmd E argv name w)) = history w ++ EvPipe :: tail /\
    (os_Pipe E (history w) = None -> exists tail', tail = EvStart argv :: tail').
Proof.
  unfold runCmd, bind, os_Pipe_call, cmd_Start_call, cmd_Wait_call, bind, ask,
    record_event, ret. simpl.
  destruct (os_Pipe E (history w)) as [msg|]; simpl.
  { split; [done|]. exists []. split; [done|]. done. }
  destruct (cmd_Start E _ argv) as [msg|]; simpl.
  { split; [done|]. eexists. rewrite <- app_assoc. simpl. split; [done|]. eauto. }
  rewrite log_lines_eq. simpl. split; [done|].
  eexists. rewrite <- !app_assoc. simpl. split; [done|]. eauto.
Qed.

(** The file name and the command line that the runner of a record
    uses. *)
Definition runner_ext (ms : metadataScript) : string :=
  if Type_ ms =? ps1 then ".ps1" else ".bat".

Definition runner_argv (ms : metadataScript) (tmpFile : string) : list string :=
  if Type_ ms =? ps1 then
    ["powershell.exe"; "-NoProfile"; "-NoLogo"; "-ExecutionPolicy";
     "Unrestricted"; "-File"; tmpFile]
  else [tmpFile].

(** The runner of a record of a concrete type. *)
Definition runner (ms : metadataScript) : M (option error) :=
  if Type_ ms =? ps1 then runPs1 E ms else runBat E ms.

Lemma run_concrete n ms w :
  Type_ ms = ps1 \/ Type_ ms = cmd \/ Type_ ms = bat ->
  run E (S n) ms w =
    (Some (Returned (fst (runner ms w))), snd (runner ms w)).
Proof.
  unfold runner. intros [H|[H|H]]; cbn [run]; rewrite H;
    cbv [ps1 cmd bat Z.eqb Pos.eqb]; unfold bind, ret.
  - by destruct (runPs1 E ms w).
  - by destruct (runBat E ms w).
  - by destruct (runBat E ms w).
Qed.

Lemma runner_eq ms w :
  runner ms w =
    let (r, w1) := tempFile E (Metadata ms +:+ runner_ext ms) (Script ms) w in
    match r with
    | (_, Some e) => (Some e, w1)
    | (tmpFile, None) =>
        let (err, w2) := runCmd E (runner_argv ms tmpFile) (Metadata ms) w1 in
        (err, MkWorld (history w2 ++ [EvRemoveAll (filepath_Dir E tmpFile)])
                      (tempdirs w2 ∖ {[filepath_Dir E tmpFile]}))
    end.
Proof.
  unfold runner, runner_ext, runner_argv, runPs1, runBat.
  destruct (Type_ ms =? ps1); unfold bind;
    destruct (tempFile E _ (Script ms) w) as [[tmpFile [e|]] w1]; try done;
    unfold os_RemoveAll, ret; by destruct (runCmd E _ (Metadata ms) w1).
Qed.

(** C7. The temporary directory is not removed on every path: when
    the directory has been created and writing the script file into it
    fails, the runner returns the error at once, before the removal is
    deferred, and the directory stays behind (no [os.RemoveAll] is
    called). *)
Theorem tempdir_left_behind (ms : metadataScript) (w : World) (dir msg : string) :
  Type_ ms = ps1 \/ Type_ ms = cmd \/ Type_ ms = bat ->
  os_TempDir E (history w) = Done dir ->
  os_WriteFile E (history w ++ [EvTempDir "metadata-scripts"])
    (filepath_Join E dir (Metadata ms +:+ runner_ext ms)) (Script ms) = Some msg ->
  run E 1 ms w =
    (Some (Returned (Some (LibError msg))),
     MkWorld (history w ++
                [EvTempDir "metadata-scripts";
                 EvWriteFile (filepath_Join E dir (Metadata ms +:+ runner_ext ms))
                             (Script ms)])
             ({[dir]} ∪ tempdirs w)) /\
  dir ∈ tempdirs (snd (run E 1 ms w)).
Proof.
  intros Hty Hdir Hwrite. rewrite (run_concrete _ _ _ Hty), runner_eq, tempFile_eq.
  cbn zeta. rewrite Hdir, Hwrite. simpl. rewrite <- app_assoc. simpl.
  split; [done|]. set_solver.
Qed.

(** On the other paths the deferred call runs: once the script file is
    written, whatever becomes of the pipe, of the start and of the
    process, the last thing the runner does is to remove the directory
    of the file, which is the temporary directory when [filepath.Dir]
    undoes [filepath.Join]. *)
Lemma tempdir_removed_after_write (ms : metadataScript) (w : World) (dir : string) :
  Type_ ms = ps1 \/ Type_ ms = cmd \/ Type_ ms = bat ->
  os_TempDir E (history w) = Done dir ->
  os_WriteFile E (history w ++ [EvTempDir "metadata-scripts"])
    (filepath_Join E dir (Metadata ms +:+ runner_ext ms)) (Script ms) = None ->
  filepath_Dir E (filepath_Join E dir (Metadata ms +:+ runner_ext ms)) = dir ->
  dir ∉ tempdirs (snd (run E 1 ms w)) /\
  exists h, history (snd (run E 1 ms w)) = h ++ [EvRemoveAll dir].
Proof.
  intros Hty Hdir Hwrite Hjoin. rewrite (run_concrete _ _ _ Hty), runner_eq, tempFile_eq.
  cbn zeta. rewrite Hdir, Hwrite. simpl.
  destruct (runCmd E _ (Metadata ms) _) as [err w2]. simpl. rewrite Hjoin.
  split; [set_solver|eauto].
Qed.

(** C8, as the code has it. The runner writes the script to
    [<label>.ps1] for a ps1 record and
    to [<label>.bat] for a cmd record as for a bat record, inside the
    new directory; then, the file written and the pipe made, it starts
    [powershell.exe] with [-NoProfile -NoLogo -ExecutionPolicy
    Unrestricted -File] on the file for a ps1 record, and the file
    itself for the two others. *)
Theorem runner_file_and_command (ms : metadataScript) (w : World) (dir : string) :
  Type_ ms = ps1 \/ Type_ ms = cmd \/ Type_ ms = bat ->
  os_TempDir E (history w) = Done dir ->
  let tmpFile := filepath_Join E dir (Metadata ms +:+ runner_ext ms) in
  let h := history w ++ [EvTempDir "metadata-scripts"] in
  exists tail,
    history (snd (run E 1 ms w)) = h ++ EvWriteFile tmpFile (Script ms) :: tail /\
    (os_WriteFile E h tmpFile (Script ms) = None ->
     os_Pipe E (h ++ [EvWriteFile tmpFile (Script ms)]) = None ->
     exists tail', tail = EvPipe :: EvStart (runner_argv ms tmpFile) :: tail').
Proof.
  intros Hty Hdir tmpFile h. rewrite (run_concrete _ _ _ Hty), runner_eq, tempFile_eq.
  cbn zeta. rewrite Hdir. fold tmpFile h.
  destruct (os_WriteFile E h tmpFile (Script ms)) as [msg|] eqn:Hw; simpl.
  { exists []. split; [done|]. done. }
  destruct (runCmd_frame (runner_argv ms tmpFile) (Metadata ms)
              (MkWorld (h ++ [EvWriteFile tmpFile (Script ms)]) ({[dir]} ∪ tempdirs w)))
    as (_ & tail & Hh & Hp).
  destruct (runCmd E _ (Metadata ms) _) as [err w2]. simpl in *.
  rewrite Hh. eexists. rewrite <- !app_assoc. simpl. split; [done|].
  intros _ Hpipe. destruct (Hp Hpipe) as [tail' ->]. eauto.
Qed.

End Runner.

(** * The resolution of a URL record *)

Lemma script_type_of_cases sType st :
  script_type_of sType = Some st <->
  (sType = "ps1" /\ st = ps1) \/ (sType = "cmd" /\ st = cmd) \/
  (sType = "bat" /\ st = bat).
Proof.
  unfold script_type_of.
  destruct (String.eqb_spec sType "ps1") as [->|H1].
  { split; [intros [= <-]; auto|]. by intros [[_ ->]|[[? _]|[? _]]]. }
  destruct (String.eqb_spec sType "cmd") as [->|H2].
  { split; [intros [= <-]; auto|]. by intros [[? _]|[[_ ->]|[? _]]]. }
  destruct (String.eqb_spec sType "bat") as [->|H3].
  { split; [intros [= <-]; auto|]. by intros [[? _]|[[? _]|[_ ->]]]. }
  split; [done|]. by intros [[? _]|[[? _]|[? _]]].
Qed.

Lemma script_type_of_concrete sType st :
  script_type_of sType = Some st -> st = ps1 \/ st = cmd \/ st = bat.
Proof. rewrite script_type_of_cases. tauto. Qed.

Lemma sdrop_S n s : sdrop (S n) s = sdrop 1 (sdrop n s).
Proof.
  revert s. induction n as [|n IH]; intros [|c s]; try done.
  change (sdrop (S (S n)) (String c s)) with (sdrop (S n) s).
  rewrite IH. by destruct n.
Qed.

(** A value that ends in a dot and an extension ends in the extension. *)
Lemma has_suffix_last3 t c0 c1 c2 c3 :
  has_suffix t (String c0 (String c1 (String c2 (String c3 "")))) = true ->
  sdrop (len t - 3) t = String c1 (String c2 (String c3 "")).
Proof.
  unfold has_suffix. intros [Hlen Heq]%andb_prop.
  apply Nat.leb_le in Hlen. apply String.eqb_eq in Heq. simpl in Hlen.
  replace (len t - 3)%nat with (S (len t - 4)) by lia.
  rewrite sdrop_S. simpl String.length in Heq. by rewrite Heq.
Qed.

Section Resolver.
Variable E : Env.

Lemma run_url_eq n ms w :
  Type_ ms = url ->
  run E (S n) ms w =
    let trimmed := TrimSpace (Script ms) in
    if (len trimmed <? 3)%nat then (Some Panicked, w)
    else
      let sType := sdrop (len trimmed - 3) trimmed in
      match script_type_of sType with
      | None => (Some (Returned (Some (ErrScriptType trimmed sType))), w)
      | Some st =>
          match downloadScript E trimmed w with
          | (Err e, w1) => (Some (Returned (Some e)), w1)
          | (Ok script, w1) => run E n (MkScript st script (Metadata ms)) w1
          end
      end.
Proof.
  intros H. cbn [run]. rewrite H. cbv [ps1 cmd bat url Z.eqb Pos.eqb]. cbn zeta.
  destruct (len (TrimSpace (Script ms)) <? 3)%nat; [done|].
  destruct (script_type_of _); [|done].
  unfold bind. by destruct (downloadScript E _ w) as [[script|e] w1].
Qed.

(** C5, as the code has it. For a URL record whose trimmed value has
    at least three bytes, the last three bytes decide: [ps1], [cmd]
    and [bat] give the script type of that name (so a value that ends
    in [.ps1], [.cmd] or [.bat] gets the matching type), the value is
    fetched and the fetched text is run as a script of that type; any
    other three bytes give the error about the script type, and the
    world is left as it was: nothing is fetched. *)
Theorem run_url_last_three (n : nat) (ms : metadataScript) (w : World) :
  Type_ ms = url ->
  (3 <= len (TrimSpace (Script ms)))%nat ->
  let trimmed := TrimSpace (Script ms) in
  let sType := sdrop (len trimmed - 3) trimmed in
  (has_suffix trimmed ".ps1" = true -> script_type_of sType = Some ps1) /\
  (has_suffix trimmed ".cmd" = true -> script_type_of sType = Some cmd) /\
  (has_suffix trimmed ".bat" = true -> script_type_of sType = Some bat) /\
  (forall st, script_type_of sType = Some st ->
     (sType = "ps1" /\ st = ps1 \/ sType = "cmd" /\ st = cmd \/
      sType = "bat" /\ st = bat) /\
     run E (S n) ms w =
       match downloadScript E trimmed w with
       | (Err e, w1) => (Some (Returned (Some e)), w1)
       | (Ok script, w1) => run E n (MkScript st script (Metadata ms)) w1
       end) /\
  (script_type_of sType = None ->
     sType <> "ps1" /\ sType <> "cmd" /\ sType <> "bat" /\
     run E (S n) ms w = (Some (Returned (Some (ErrScriptType trimmed sType))), w)).
Proof.
  intros Hty Hlen trimmed sType.
  assert (run E (S n) ms w =
            match script_type_of sType with
            | None => (Some (Returned (Some (ErrScriptType trimmed sType))), w)
            | Some st =>
                match downloadScript E trimmed w with
                | (Err e, w1) => (Some (Returned (Some e)), w1)
                | (Ok script, w1) => run E n (MkScript st script (Metadata ms)) w1
                end
            end) as Hrun.
  { rewrite (run_url_eq _ _ _ Hty). cbn zeta. fold trimmed.
    destruct (Nat.ltb_spec (len trimmed) 3) as [Hlt|_]; [|done].
    unfold trimmed in Hlt. lia. }
  split_and!.
  - intros Hs. unfold sType. by rewrite (has_suffix_last3 _ _ _ _ _ Hs).
  - intros Hs. unfold sType. by rewrite (has_suffix_last3 _ _ _ _ _ Hs).
  - intros Hs. unfold sType. by rewrite (has_suffix_last3 _ _ _ _ _ Hs).
  - intros st Hst. rewrite Hrun, Hst. split; [|done].
    by apply script_type_of_cases.
  - intros Hst. rewrite Hrun, Hst. split_and!; try done;
      intros Heq; rewrite Heq in Hst; discriminate.
Qed.

(** C6. The trimmed value of a URL record may have fewer than three
    bytes; the slice expression then panics: [run] does not return an
    error, the panic unwinds the program. *)
Theorem run_url_short_panics (n : nat) (ms : metadataScript) (w : World) :
  Type_ ms = url ->
  (len (TrimSpace (Script ms)) < 3)%nat ->
  run E (S n) ms w = (Some Panicked, w).
Proof.
  intros Hty Hlen. rewrite (run_url_eq _ _ _ Hty). cbn zeta.
  destruct (Nat.ltb_spec (len (TrimSpace (Script ms))) 3); [done|lia].
Qed.

End Resolver.

Section Depth.
Variable E : Env.

Lemma run_undefined_type n ms w :
  Type_ ms <> ps1 -> Type_ ms <> cmd -> Type_ ms <> bat -> Type_ ms <> url ->
  run E (S n) ms w = (Some (Returned (Some (ErrUnknownType (Script ms)))), w).
Proof.
  intros H1 H2 H3 H4. cbn [run].
  destruct (Z.eqb_spec (Type_ ms) ps1); [done|].
  destruct (Z.eqb_spec (Type_ ms) cmd); [done|].
  destruct (Z.eqb_spec (Type_ ms) bat); [done|].
  by destruct (Z.eqb_spec (Type_ ms) url).
Qed.

Lemma script_type_cases (st : metadataScriptType) :
  (st = ps1 \/ st = cmd \/ st = bat) \/ st = url \/
  (st <> ps1 /\ st <> cmd /\ st <> bat /\ st <> url).
Proof. unfold ps1, cmd, bat, url. lia. Qed.

(** With fuel for one more call than the record needs, the result is
    there and more fuel does not change it. *)
Lemma run_fuel_two n ms w :
  run E (S (S n)) ms w = run E 2 ms w /\ is_Some (fst (run E 2 ms w)).
Proof.
  destruct (script_type_cases (Type_ ms)) as [Hc|[Hu|(H1 & H2 & H3 & H4)]].
  - rewrite !(run_concrete _ _ _ _ Hc). eauto.
  - rewrite !(run_url_eq _ _ _ _ Hu). cbn zeta.
    destruct (len (TrimSpace (Script ms)) <? 3)%nat; [eauto|].
    destruct (script_type_of _) as [st|] eqn:Hst; [|eauto].
    destruct (downloadScript E _ w) as [[script|e] w1]; [|eauto].
    apply script_type_of_concrete in Hst.
    rewrite !(run_concrete E _ (MkScript st script (Metadata ms)) _ Hst). eauto.
  - rewrite !run_undefined_type by done. eauto.
Qed.

(** C9. [run] calls itself at most once on the way down: the call for
    a URL record whose value is classified and fetched is followed by
    one call, for a record of type ps1, cmd or bat that holds the
    fetched text and the same label; that call goes to a runner with
    the text as it is and calls [run] no further.  So two levels of
    calls give a result for every record and every world, and deeper
    levels are never used; a record that is not a URL record needs one
    level. *)
Theorem run_recursion_depth (ms : metadataScript) (w : World) :
  is_Some (fst (run E 2 ms w)) /\
  (forall n, run E (S (S n)) ms w = run E 2 ms w) /\
  (fst (run E 1 ms w) = None -> Type_ ms = url) /\
  (forall st script w1,
     Type_ ms = url ->
     (3 <= len (TrimSpace (Script ms)))%nat ->
     script_type_of (sdrop (len (TrimSpace (Script ms)) - 3)
                       (TrimSpace (Script ms))) = Some st ->
     downloadScript E (TrimSpace (Script ms)) w = (Ok script, w1) ->
     (st = ps1 \/ st = cmd \/ st = bat) /\
     run E 2 ms w = run E 1 (MkScript st script (Metadata ms)) w1 /\
     run E 1 (MkScript st script (Metadata ms)) w1 =
       (Some (Returned (fst (runner E (MkScript st script (Metadata ms)) w1))),
        snd (runner E (MkScript st script (Metadata ms)) w1))).
Proof.
  split_and!.
  - apply (run_fuel_two 0).
  - intros n. apply run_fuel_two.
  - intros Hnone.
    destruct (script_type_cases (Type_ ms)) as [Hc|[Hu|(H1 & H2 & H3 & H4)]].
    + by rewrite (run_concrete _ _ _ _ Hc) in Hnone.
    + done.
    + by rewrite run_undefined_type in Hnone.
  - intros st script w1 Hu Hlen Hst Hdl.
    pose proof (script_type_of_concrete _ _ Hst) as Hc.
    split; [done|].
    split; [|exact (run_concrete E _ (MkScript st script (Metadata ms)) _ Hc)].
    rewrite (run_url_eq _ _ _ _ Hu). cbn zeta.
    destruct (Nat.ltb_spec (len (TrimSpace (Script ms))) 3); [lia|].
    by rewrite Hst, Hdl.
Qed.

End Depth.

(** * The loop over the run list and the exit code *)

(** The label of a "Found ... in metadata." line. *)
Definition found_label (ev : event) : option string :=
  match ev with
  | EvLog (Infoln [Str a; Str m; Str b]) =>
      if String.eqb a "Found" && String.eqb b "in metadata." then Some m else None
  | _ => None
  end.

(** The scripts that the loop has reached, by their labels. *)
Definition found_labels (h : list event) : list string := omap found_label h.

Lemma found_labels_app h1 h2 :
  found_labels (h1 ++ h2) = found_labels h1 ++ found_labels h2.
Proof. apply omap_app. Qed.

Lemma found_labels_output name lines :
  found_labels (map (fun l => EvLog (Output 3 (name +:+ ": " +:+ l))) lines) = [].
Proof. by induction lines. Qed.

(** A record whose resolution does not panic. *)
Definition long_enough (ms : metadataScript) : Prop :=
  Type_ ms = url -> (3 <= len (TrimSpace (Script ms)))%nat.

Section Orchestrator.
Variable E : Env.

Ltac no_found_step :=
  simpl; rewrite ?found_labels_app; simpl; rewrite ?app_nil_r; try done.

Lemma runner_no_found ms w :
  found_labels (history (snd (runner E ms w))) = found_labels (history w).
Proof.
  rewrite runner_eq, tempFile_eq. cbn zeta.
  destruct (os_TempDir E (history w)) as [dir|msg]; [|by no_found_step].
  destruct (os_WriteFile E _ _ _) as [msg|]; simpl; [by no_found_step|].
  unfold runCmd, bind, os_Pipe_call, cmd_Start_call, cmd_Wait_call, bind, ask,
    record_event, ret. simpl.
  destruct (os_Pipe E _); simpl; [by no_found_step|].
  destruct (cmd_Start E _ _); simpl; [by no_found_step|].
  rewrite log_lines_eq. simpl. no_found_step.
  by rewrite found_labels_output, app_nil_r.
Qed.

Lemma downloadURL_no_found p w :
  found_labels (history (snd (downloadURL E p w))) = found_labels (history w).
Proof.
  rewrite downloadURL_eq. destruct (http_Get E (history w) p); by no_found_step.
Qed.

Lemma downloadScript_no_found p w :
  found_labels (history (snd (downloadScript E p w))) = found_labels (history w).
Proof.
  unfold downloadScript. destruct (findMatch p) as [bkt obj].
  destruct (_ && _); [|apply downloadURL_no_found].
  unfold bind at 1, downloadGSURL, bind, ask, record_event, ret. simpl.
  destruct (storage_NewClient E (history w)); simpl.
  { unfold log, bind, record_event. simpl. rewrite downloadURL_no_found.
    by no_found_step. }
  destruct (obj_NewReader E _ bkt obj); simpl.
  { unfold log, bind, record_event. simpl. rewrite downloadURL_no_found.
    by no_found_step. }
  destruct (buf_ReadFrom E _ bkt obj); simpl; [by no_found_step|].
  unfold log, bind, record_event. simpl. rewrite downloadURL_no_found.
  by no_found_step.
Qed.

(** A record that is long enough is resolved and run without a panic,
    and the loop's "Found" lines are its own. *)
Lemma run_returns ms w :
  long_enough ms ->
  exists err,
    fst (run E 2 ms w) = Some (Returned err) /\
    found_labels (history (snd (run E 2 ms w))) = found_labels (history w).
Proof.
  intros Hlong.
  destruct (script_type_cases (Type_ ms)) as [Hc|[Hu|(H1 & H2 & H3 & H4)]].
  - rewrite (run_concrete _ _ _ _ Hc). simpl. eauto using runner_no_found.
  - rewrite (run_url_eq _ _ _ _ Hu). cbn zeta.
    destruct (Nat.ltb_spec (len (TrimSpace (Script ms))) 3) as [Hlt|_].
    { specialize (Hlong Hu). lia. }
    destruct (script_type_of _) as [st|] eqn:Hst; [|eauto].
    pose proof (downloadScript_no_found (TrimSpace (Script ms)) w) as Hd.
    destruct (downloadScript E _ w) as [[script|e] w1]; [|eauto].
    apply script_type_of_concrete in Hst.
    rewrite (run_concrete E _ (MkScript st script (Metadata ms)) _ Hst). simpl.
    rewrite runner_no_found. eauto.
  - rewrite run_undefined_type by done. eauto.
Qed.

(** The world after the line that announces a script, and after the
    line that reports its exit status. *)
Definition announced (script : metadataScript) (w : World) : World :=
  MkWorld (history w ++
             [EvLog (Infoln [Str "Found"; Str (Metadata script); Str "in metadata."])])
          (tempdirs w).

Definition reported (script : metadataScript) (status : Z) (w : World) : World :=
  MkWorld (history w ++ [EvLog (Infoln [Str (Metadata script); ErrArg (ExitError status)])])
          (tempdirs w).

Lemma runScripts_nonzero_exit fuel script rest w status w1 :
  run E fuel script (announced script w)
    = (Some (Returned (Some (ExitError status))), w1) ->
  runScripts E fuel (script :: rest) w
    = runScripts E fuel rest (reported script status w1).
Proof.
  intros Hrun. cbn [runScripts]. unfold bind at 1, log, record_event.
  unfold bind at 1. fold (announced script w). rewrite Hrun.
  unfold bind, log, record_event. reflexivity.
Qed.

Lemma runScripts_completes l w :
  Forall long_enough l ->
  exists w',
    runScripts E 2 l w = (Some Completed, w') /\
    found_labels (history w') = found_labels (history w) ++ map Metadata l.
Proof.
  intros Hl. revert w. induction Hl as [|script rest Hlong _ IH]; intros w.
  { exists w. by rewrite app_nil_r. }
  cbn [runScripts]. unfold bind at 1, log, record_event.
  unfold bind at 1. fold (announced script w).
  destruct (run_returns script (announced script w) Hlong) as (err & Hr & Hf).
  destruct (run E 2 script (announced script w)) as [r w1]. simpl in Hr, Hf. subst r.
  assert (found_labels (history w1)
          = found_labels (history w) ++ [Metadata script]) as Hf1.
  { rewrite Hf. unfold announced. simpl. rewrite found_labels_app. done. }
  destruct err as [[status|msg|p q|s|c|]|];
    unfold bind, log, record_event;
    match goal with
    | |- context [runScripts E 2 rest ?w2] =>
        destruct (IH w2) as (w' & -> & Hw')
    end; exists w'; (split; [done|]); rewrite Hw'; simpl;
    rewrite found_labels_app, Hf1; simpl; rewrite app_nil_r, <- app_assoc; done.
Qed.

Lemma runScripts_fuel l w : is_Some (fst (runScripts E 2 l w)).
Proof.
  revert w. induction l as [|script rest IH]; intros w; [by eexists|].
  cbn [runScripts]. unfold bind at 1, log, record_event.
  unfold bind at 1. fold (announced script w).
  destruct (run_fuel_two E 0 script (announced script w)) as [_ [o Ho]].
  destruct (run E 2 script (announced script w)) as [r w1]. simpl in Ho. subst r.
  destruct o as [[[status|msg|p q|s|c|]|]|];
    unfold bind, log, record_event, ret; try apply IH. by eexists.
Qed.

(** The world when [main] asks for the metadata. *)
Definition started (args : list string) (w : World) : World :=
  MkWorld (history w ++
             [EvLog (Init "GCEMetadataScripts" "COM1");
              EvLog (Infof "Starting %s scripts (verison %s)."
                           [Str (nth 1 args ""); Str (version E)])])
          (tempdirs w).

Lemma main_exit fuel args w :
  fst (main E fuel args w) =
    match validateArgs args with
    | Err _ => Some (ExitCode 1)
    | Ok metadata =>
        match getScripts E metadata (started args w) with
        | (Err _, _) => Some (ExitCode 1)
        | (Ok l, w1) =>
            if (length l =? 0)%nat then Some (ExitCode 0)
            else match fst (runScripts E fuel l w1) with
                 | None => None
                 | Some Unwound => Some Crashed
                 | Some Completed => Some (ExitCode 0)
                 end
        end
    end.
Proof.
  unfold main, bind, log, record_event, logger_Fatal, bind, log, record_event, ret.
  simpl. destruct (validateArgs args) as [metadata|err]; [|done].
  cbn [history tempdirs]. rewrite <- app_assoc. simpl app. fold (started args w).
  destruct (getScripts E metadata (started args w)) as [[l|err] w1]; [|done].
  destruct (length l =? 0)%nat; [done|].
  by destruct (runScripts E fuel l w1) as [[[|]|] w2].
Qed.

(** What holds on run lists of records that are resolved without a
    panic.  An exit error that [run] returns is reported by an
    informational line that carries it, and the loop goes on with the
    scripts that remain; every script of such a list is reached, in
    the order of the list, whatever the exit statuses.  The exit code
    is 1 when the arguments are refused or the metadata cannot be
    fetched; otherwise it is 0 when every record of the list is long
    enough, and the only other ending is the crash. *)
Theorem nonzero_exit_is_not_fatal :
  (forall fuel script rest w status w1,
     run E fuel script (announced script w)
       = (Some (Returned (Some (ExitError status))), w1) ->
     runScripts E fuel (script :: rest) w
       = runScripts E fuel rest (reported script status w1)) /\
  (forall l w, Forall long_enough l ->
     exists w',
       runScripts E 2 l w = (Some Completed, w') /\
       found_labels (history w') = found_labels (history w) ++ map Metadata l) /\
  (forall args w,
     match validateArgs args with
     | Err _ => fst (main E 2 args w) = Some (ExitCode 1)
     | Ok metadata =>
         match getScripts E metadata (started args w) with
         | (Err _, _) => fst (main E 2 args w) = Some (ExitCode 1)
         | (Ok l, _) =>
             (Forall long_enough l -> fst (main E 2 args w) = Some (ExitCode 0)) /\
             (fst (main E 2 args w) = Some (ExitCode 0) \/
              fst (main E 2 args w) = Some Crashed)
         end
     end).
Proof.
  split_and!.
  - apply runScripts_nonzero_exit.
  - apply runScripts_completes.
  - intros args w. rewrite main_exit.
    destruct (validateArgs args) as [metadata|err]; [|done].
    destruct (getScripts E metadata (started args w)) as [[l|err] w1]; [|done].
    destruct (length l =? 0)%nat; [auto|]. split.
    + intros Hl. by destruct (runScripts_completes l w1 Hl) as (w' & -> & _).
    + destruct (runScripts_fuel l w1) as [[|] ->]; auto.
Qed.

End Orchestrator.

(** The startup phase with a ps1 script and a cmd script that both exit
    with status 3. *)
Definition both_exit_3 : Env :=
  scripted (Done a_tempdir) None (Exited 3) (Done "") (Failed "unused")
    (Done (<["windows-startup-script-cmd":="exit /b 3"]>
           (<["windows-startup-script-ps1":="exit 3"]> ∅))).

Lemma nonzero_exit_is_not_fatal_witness :
  fst (main both_exit_3 2 ["GCEMetadataScripts.exe"; "startup"] nothing_yet)
    = Some (ExitCode 0) /\
  found_labels
    (history (snd (main both_exit_3 2 ["GCEMetadataScripts.exe"; "startup"]
                     nothing_yet)))
    = ["windows-startup-script-ps1"; "windows-startup-script-cmd"].
Proof.
  split; [|vm_compute; reflexivity].
  pose proof (proj2 (proj2 (nonzero_exit_is_not_fatal both_exit_3))
                ["GCEMetadataScripts.exe"; "startup"] nothing_yet) as H.
  destruct (validateArgs _) as [metadata|err] eqn:Hargs;
    vm_compute in Hargs; [injection Hargs as <-|discriminate].
  destruct (getScripts _ _ _) as [[l|err] w1] eqn:Hget;
    vm_compute in Hget; [injection Hget as <- _|discriminate].
  apply H. repeat constructor; intros [=].
Defined.

(** * The theorems at concrete records *)

Definition all_fine : Env :=
  scripted (Done a_tempdir) None (Exited 0) (Done "Write-Output fetched")
    (Done (MkResponse 200 (Done "Write-Output fetched"))) (Done ∅).

Definition disk_full : Env :=
  scripted (Done a_tempdir) (Some "There is not enough space on the disk.")
    (Exited 0) (Done "") (Failed "unused") (Done ∅).

(** A URL that ends in [.cmd], with white space around it. *)
Lemma run_url_last_three_witness :
  let ms := MkScript url "  https://example.com/boot.cmd
" "windows-startup-script-url" in
  let trimmed := TrimSpace (Script ms) in
  trimmed = "https://example.com/boot.cmd" /\
  script_type_of (sdrop (len trimmed - 3) trimmed) = Some cmd.
Proof.
  intros ms trimmed. split; [vm_compute; reflexivity|].
  refine (proj1 (proj2 (run_url_last_three all_fine 1 ms nothing_yet _ _)) _);
    vm_compute; first [reflexivity|lia].
Defined.

(** C5 does not hold as stated: a value that ends in none of [.ps1],
    [.cmd], [.bat] but in the letters [ps1] is not refused; it is
    fetched and its text is run as a ps1 script. *)
Lemma url_without_dot_is_fetched :
  let ms := MkScript url "http://example.com/startps1" "windows-startup-script-url" in
  has_suffix (TrimSpace (Script ms)) ".ps1" = false /\
  has_suffix (TrimSpace (Script ms)) ".cmd" = false /\
  has_suffix (TrimSpace (Script ms)) ".bat" = false /\
  fst (run all_fine 2 ms nothing_yet) = Some (Returned None) /\
  http_gets (history (snd (run all_fine 2 ms nothing_yet)))
    = ["http://example.com/startps1"].
Proof. vm_compute. repeat split; reflexivity. Qed.

(** A URL record whose value is a single letter between blanks. *)
Lemma run_url_short_panics_witness :
  run all_fine 2 (MkScript url " a " "windows-startup-script-url") nothing_yet
    = (Some Panicked, nothing_yet).
Proof.
  apply (run_url_short_panics all_fine 1); [reflexivity|vm_compute; lia].
Defined.

(** A ps1 record on a full disk: the directory is made, the write
    fails, the directory is still there. *)
Lemma tempdir_left_behind_witness :
  let ms := MkScript ps1 "Write-Output hi" "windows-startup-script-ps1" in
  fst (run disk_full 1 ms nothing_yet)
    = Some (Returned (Some (LibError "There is not enough space on the disk."))) /\
  a_tempdir ∈ tempdirs (snd (run disk_full 1 ms nothing_yet)).
Proof.
  intros ms.
  destruct (tempdir_left_behind disk_full ms nothing_yet a_tempdir
              "There is not enough space on the disk.") as [Hrun Hdir].
  - left. reflexivity.
  - reflexivity.
  - reflexivity.
  - rewrite Hrun. split; [reflexivity|exact Hdir].
Defined.

(** C8 does not hold as stated: the script of a cmd record is written
    to a [.bat] file, not to a [.cmd] file. *)
Lemma cmd_record_gets_bat_file :
  let ms := MkScript cmd "echo hi" "windows-startup-script-cmd" in
  let h := history (snd (run all_fine 1 ms nothing_yet)) in
  EvWriteFile (a_tempdir +:+ "\windows-startup-script-cmd.bat") "echo hi" ∈ h /\
  EvWriteFile (a_tempdir +:+ "\windows-startup-script-cmd.cmd") "echo hi" ∉ h.
Proof.
  intros ms h. vm_compute in h. subst h. split.
  - vm_compute. set_solver.
  - intros H. vm_compute in H. set_unfold in H. destruct_or?; discriminate.
Qed.

(** A cmd record in a world where everything works. *)
Lemma runner_file_and_command_witness :
  let ms := MkScript cmd "echo hi" "windows-startup-script-cmd" in
  let tmpFile := a_tempdir +:+ "\windows-startup-script-cmd.bat" in
  exists tail',
    history (snd (run all_fine 1 ms nothing_yet)) =
      [EvTempDir "metadata-scripts"; EvWriteFile tmpFile "echo hi";
       EvPipe; EvStart [tmpFile]] ++ tail'.
Proof.
  intros ms tmpFile.
  destruct (runner_file_and_command all_fine ms nothing_yet a_tempdir)
    as (tail & Hh & Htail).
  - right. left. reflexivity.
  - reflexivity.
  - destruct Htail as [tail' ->]; [reflexivity|reflexivity|].
    exists tail'. exact Hh.
Defined.

(** * [findMatch] on some references *)

Example findMatch_gs :
  findMatch "gs://my-bucket/dir/run.ps1" = ("my-bucket", "dir/run.ps1").
Proof. vm_compute. reflexivity. Qed.

Example findMatch_sub :
  findMatch "https://b.k.storage.googleapis.com/o.cmd" = ("b.k", "o.cmd").
Proof. vm_compute. reflexivity. Qed.

Example findMatch_cloud :
  findMatch "http://storage.cloud.google.com/bkt/a/b.bat" = ("bkt", "a/b.bat").
Proof. vm_compute. reflexivity. Qed.

Example findMatch_legacy :
  findMatch "https://commondatastorage.googleapis.com/bkt/x.ps1" = ("bkt", "x.ps1").
Proof. vm_compute. reflexivity. Qed.

Example findMatch_bucket_only : findMatch "gs://my-bucket/" = ("", "").
Proof. vm_compute. reflexivity. Qed.

Example findMatch_other : findMatch "ftp://host/file.ps1" = ("", "").
Proof. vm_compute. reflexivity. Qed.

(** The first shape is met by a [gs://] reference. *)
Lemma findMatch_first_shape_witness :
  first_shape "gs://my-bucket/dir/run.ps1" "my-bucket" "dir/run.ps1".
Proof.
  destruct (proj1 (findMatch_first_shape "gs://my-bucket/dir/run.ps1"
                     "my-bucket" "dir/run.ps1")) as [H|(H & _)].
  - vm_compute. reflexivity.
  - exact H.
  - discriminate H.
Defined.

(** * The program on some metadata *)

(** One populated key gives one record. *)
Example parseMetadata_single :
  parseMetadata startup_keys (<["windows-startup-script-ps1":="Write-Output hi"]> ∅)
  = [MkScript ps1 "Write-Output hi" "windows-startup-script-ps1"].
Proof. vm_compute. reflexivity. Qed.

(** Without metadata there is nothing to run: the program exits with
    status 0 and starts no process. *)
Example main_nothing_to_run :
  let r := main all_fine 2 ["GCEMetadataScripts.exe"; "shutdown"] nothing_yet in
  fst r = Some (ExitCode 0) /\
  omap (fun ev => match ev with EvStart argv => Some argv | _ => None end)
       (history (snd r)) = [].
Proof. vm_compute. split; reflexivity. Qed.

(** A bad argument ends the program with status 1. *)
Example main_bad_argument :
  fst (main all_fine 2 ["GCEMetadataScripts.exe"; "reboot"] nothing_yet)
  = Some (ExitCode 1).
Proof. vm_compute. reflexivity. Qed.

(** A URL record whose value is too short crashes the program, also
    after a script that ran. *)
Example main_short_url_crashes :
  fst (main
         (scripted (Done a_tempdir) None (Exited 0) (Done "") (Failed "unused")
            (Done (<["windows-startup-script-url":="a"]>
                   (<["windows-startup-script-ps1":="Write-Output hi"]> ∅))))
         2 ["GCEMetadataScripts.exe"; "startup"] nothing_yet)
  = Some Crashed.
Proof. vm_compute. reflexivity. Qed.

(** * More on the arguments and on the run list *)

(** The key map of a phase. *)
Definition phase_keys (phase : string) : gmap Z string :=
  <[ps1:=script_key phase ps1]> (<[cmd:=script_key phase cmd]>
  (<[bat:=script_key phase bat]> (<[url:=script_key phase url]> ∅))).

(** X1. [validateArgs] accepts an argument vector exactly when it has
    two elements of which the second is one of the three commands, and
    it then returns the four keys of that phase; every other vector,
    whatever its length, is refused with the one error about the
    arguments. *)
Theorem validateArgs_accepts (args : list string) :
  (forall mdsm,
     validateArgs args = Ok mdsm <->
     exists prog phase,
       args = [prog; phase] /\ phase ∈ commands /\ mdsm = phase_keys phase) /\
  (forall e, validateArgs args = Err e -> e = ErrNoValidArgs).
Proof.
  split.
  - intros mdsm. split.
    + destruct args as [|prog [|phase [|x args]]]; try done.
      intros [Hph ->]%validateArgs_phase. by exists prog, phase.
    + intros (prog & phase & -> & Hph & ->).
      unfold commands in Hph.
      apply elem_of_cons in Hph as [->|Hph]; [vm_compute; reflexivity|].
      apply elem_of_cons in Hph as [->|Hph]; [vm_compute; reflexivity|].
      apply elem_of_cons in Hph as [->|Hph]; [vm_compute; reflexivity|].
      by apply elem_of_nil in Hph.
  - intros e. destruct args as [|prog [|phase [|x args]]]; unfold validateArgs;
      try congruence.
    unfold commands. cbn [validateArgs_range].
    repeat match goal with
           | |- context [String.eqb ?a ?b] => destruct (String.eqb a b)
           end; congruence.
Qed.

Lemma parseMetadata_omap mdsm md :
  parseMetadata mdsm md
  = omap (visit_in mdsm md) (merge_sort Z.le (map_to_list mdsm).*1).
Proof. unfold parseMetadata, parseMetadata_in. by rewrite parseMetadata_range_omap. Qed.

Lemma visit_in_Some mdsm md st r :
  visit_in mdsm md st = Some r ->
  Type_ r = st /\ Metadata r = default "" (mdsm !! st) /\
  md !! Metadata r = Some (Script r) /\ Script r <> "".
Proof.
  unfold visit_in. destruct (md !! _) as [script|] eqn:Hmd; [|done].
  destruct (String.eqb_spec script ""); [done|]. by intros [= <-].
Qed.

Lemma sorted_le_lt (l : list Z) :
  StronglySorted Z.le l -> NoDup l -> StronglySorted Z.lt l.
Proof.
  induction 1 as [|x l Hl IH Hx]; intros Hnd; [constructor|].
  apply NoDup_cons in Hnd as [Hnot Hnd]. constructor; [by apply IH|].
  apply Forall_forall. intros y Hy.
  pose proof (proj1 (Forall_forall _ _) Hx y Hy).
  assert (x <> y) by (intros ->; done). lia.
Qed.

Lemma sorted_keys_lt (mdsm : gmap Z string) :
  StronglySorted Z.lt (merge_sort Z.le (map_to_list mdsm).*1).
Proof.
  apply sorted_le_lt.
  - apply (StronglySorted_merge_sort Z.le).
  - rewrite merge_sort_Permutation. apply NoDup_fst_map_to_list.
Qed.

Lemma omap_visit_sorted mdsm md (keys : list Z) :
  StronglySorted Z.lt keys ->
  StronglySorted Z.lt (Type_ <$> omap (visit_in mdsm md) keys).
Proof.
  induction 1 as [|x l Hl IH Hx]; [constructor|]. simpl.
  destruct (visit_in mdsm md x) as [r|] eqn:Hv; [|exact IH].
  apply visit_in_Some in Hv as (Hty & _). simpl. constructor; [exact IH|].
  apply Forall_forall. intros y (r' & -> & Hr')%list_elem_of_fmap.
  apply list_elem_of_omap in Hr' as (st & Hst & Hv').
  apply visit_in_Some in Hv' as (-> & _). rewrite Hty.
  exact (proj1 (Forall_forall _ _) Hx _ Hst).
Qed.

(** X2. Whatever key map and metadata [parseMetadata] is given, the
    order in which [range] visits the keys does not show in the run
    list, and the script types of the run list are strictly ascending:
    no type comes twice. *)
Theorem parseMetadata_sorted (mdsm : gmap Z string) (md : gmap string string)
    (iteration : list Z) :
  iteration ≡ₚ (map_to_list mdsm).*1 ->
  parseMetadata_in iteration mdsm md = parseMetadata mdsm md /\
  StronglySorted Z.lt (Type_ <$> parseMetadata mdsm md).
Proof.
  intros Hperm. split.
  - unfold parseMetadata, parseMetadata_in. by rewrite (sorted_keys _ _ Hperm).
  - rewrite parseMetadata_omap. apply omap_visit_sorted, sorted_keys_lt.
Qed.

(** A key map given out of order, with a type that is none of the four. *)
Lemma parseMetadata_sorted_witness :
  let mdsm : gmap Z string := <[7:="k7"]> (<[cmd:="kc"]> (<[ps1:="kp"]> ∅)) in
  let md : gmap string string :=
    <["k7":="seven"]> (<["kp":="p"]> (<["kc":="c"]> ∅)) in
  parseMetadata_in [cmd; 7; ps1] mdsm md =
    [MkScript ps1 "p" "kp"; MkScript cmd "c" "kc"; MkScript 7 "seven" "k7"].
Proof.
  intros mdsm md.
  rewrite (proj1 (parseMetadata_sorted mdsm md [cmd; 7; ps1]
                    ltac:(vm_compute; solve_Permutation))).
  vm_compute. reflexivity.
Defined.

(** X3. A record is in the run list exactly when its type is a key of
    the key map, its label is the attribute name of that key, its body
    is the value of that attribute in the metadata, and the body is not
    empty. *)
Theorem parseMetadata_records (mdsm : gmap Z string) (md : gmap string string)
    (r : metadataScript) :
  r ∈ parseMetadata mdsm md <->
  mdsm !! Type_ r = Some (Metadata r) /\
  md !! Metadata r = Some (Script r) /\ Script r <> "".
Proof.
  rewrite parseMetadata_omap, list_elem_of_omap. split.
  - intros (st & Hst & Hv).
    rewrite merge_sort_Permutation in Hst.
    apply list_elem_of_fmap in Hst as ([st' name] & -> & Hin).
    apply elem_of_map_to_list in Hin. simpl in Hv.
    apply visit_in_Some in Hv as (Hty & Hm & Hmd & Hne).
    rewrite Hin in Hm. simpl in Hm. split_and!; [by rewrite Hty, Hm|done|done].
  - intros (Hk & Hmd & Hne). exists (Type_ r). split.
    + rewrite merge_sort_Permutation. apply list_elem_of_fmap.
      exists (Type_ r, Metadata r). split; [done|]. by apply elem_of_map_to_list.
    + unfold visit_in. rewrite Hk. simpl. rewrite Hmd.
      destruct (String.eqb_spec (Script r) ""); [done|]. by destruct r.
Qed.

(** * More on the runners *)

(** The command lines of the processes started, and the lines logged
    for their output, in the order of the calls. *)
Definition processes (h : list event) : list (list string) :=
  omap (fun ev => match ev with EvStart argv => Some argv | _ => None end) h.

Definition output_lines (h : list event) : list string :=
  omap (fun ev => match ev with EvLog (Output _ s) => Some s | _ => None end) h.

Lemma processes_app h1 h2 : processes (h1 ++ h2) = processes h1 ++ processes h2.
Proof. apply omap_app. Qed.

Lemma output_lines_app h1 h2 :
  output_lines (h1 ++ h2) = output_lines h1 ++ output_lines h2.
Proof. apply omap_app. Qed.

Lemma processes_logged name lines :
  processes (map (fun l => EvLog (Output 3 (name +:+ ": " +:+ l))) lines) = [].
Proof. by induction lines. Qed.

Lemma output_lines_logged name lines :
  output_lines (map (fun l => EvLog (Output 3 (name +:+ ": " +:+ l))) lines)
  = map (fun l => name +:+ ": " +:+ l) lines.
Proof. induction lines as [|l lines IH]; [done|]. simpl. by rewrite <- IH. Qed.

Section RunCmd.
Variable E : Env.

(** What [runCmd] does, by the answers it gets. *)
Lemma runCmd_eq argv name w :
  runCmd E argv name w =
    let h1 := history w ++ [EvPipe] in
    let h2 := h1 ++ [EvStart argv] in
    let h3 := h2 ++
              map (fun l => EvLog (Output 3 (name +:+ ": " +:+ l)))
                  (cmd_Lines E h2 argv) in
    match os_Pipe E (history w) with
    | Some msg => (Some (LibError msg), MkWorld h1 (tempdirs w))
    | None =>
        match cmd_Start E h1 argv with
        | Some msg => (Some (LibError msg), MkWorld h2 (tempdirs w))
        | None =>
            (wait_error (cmd_Wait E h3 argv),
             MkWorld (h3 ++ [EvWait argv]) (tempdirs w))
        end
    end.
Proof.
  unfold runCmd, bind, os_Pipe_call, cmd_Start_call, cmd_Wait_call, bind, ask,
    record_event, ret. simpl.
  destruct (os_Pipe E (history w)); [done|]. simpl.
  destruct (cmd_Start E _ argv); [done|]. simpl.
  by rewrite log_lines_eq.
Qed.

(** X4. [runCmd] starts the command it is given at most once, and only
    when it has a pipe; an exit error that it returns never carries
    status 0; when it returns nil or an exit error, the process has
    been waited for, which is the last thing done; and once the process
    is started, every line of its output is logged, in order, after
    the label and a colon. *)
Theorem runCmd_runs_once (argv : list string) (name : string) (w : World) :
  let r := runCmd E argv name w in
  processes (history (snd r))
    = processes (history w) ++
      (if os_Pipe E (history w) then [] else [argv]) /\
  (forall status, fst r = Some (ExitError status) -> status <> 0) /\
  (fst r = None \/ (exists status, fst r = Some (ExitError status)) ->
   exists h, history (snd r) = h ++ [EvWait argv]) /\
  (os_Pipe E (history w) = None ->
   cmd_Start E (history w ++ [EvPipe]) argv = None ->
   output_lines (history (snd r))
     = output_lines (history w) ++
       map (fun l => name +:+ ": " +:+ l)
           (cmd_Lines E ((history w ++ [EvPipe]) ++ [EvStart argv]) argv)).
Proof.
  intros r. subst r. rewrite runCmd_eq. cbn zeta.
  destruct (os_Pipe E (history w)) as [msg|] eqn:Hp; simpl.
  { rewrite processes_app. simpl. split_and!; try done.
    intros [H|[status H]]; discriminate. }
  destruct (cmd_Start E _ argv) as [msg|] eqn:Hs; simpl.
  { rewrite !processes_app. simpl. rewrite <- app_assoc. split_and!; try done.
    intros [H|[status H]]; discriminate. }
  rewrite !processes_app, processes_logged. simpl.
  rewrite !app_nil_r, <- app_assoc. split_and!; try done.
  - intros status. unfold wait_error.
    destruct (cmd_Wait E _ argv) as [st|msg]; [|done].
    destruct (Z.eqb_spec st 0); [done|]. by intros [= <-].
  - eauto.
  - intros _ _. rewrite !output_lines_app, output_lines_logged. simpl.
    by rewrite !app_nil_r.
Qed.

End RunCmd.

(** * More on the downloaders *)

(** The requests made to the metadata server. *)
Definition metadata_requests (h : list event) : list (string * (string * string)) :=
  omap (fun ev => match ev with
                  | EvMetadataRequest target header => Some (target, header)
                  | _ => None
                  end) h.

(** The events of a fetch: calls to storage, GETs and the reading of
    their bodies, and the lines logged with [Infof]. *)
Definition is_fetch_event (ev : event) : bool :=
  match ev with
  | EvNewClient | EvNewReader _ _ | EvReadFrom _ _ | EvHttpGet _ | EvReadAll
  | EvLog (Infof _ _) => true
  | _ => false
  end.

(** The events of a runner: the temporary directory and file, the pipe,
    the process and the lines of its output. *)
Definition is_runner_event (ev : event) : bool :=
  match ev with
  | EvTempDir _ | EvWriteFile _ _ | EvPipe | EvStart _ | EvWait _
  | EvRemoveAll _ | EvLog (Output _ _) => true
  | _ => false
  end.

(** [w'] comes after [w], the events in between being of the kind [ok]. *)
Definition grows_by (ok : event -> bool) (w w' : World) : Prop :=
  exists evs, history w' = history w ++ evs /\ Forall (fun ev => ok ev = true) evs.

Lemma grows_by_refl ok w : grows_by ok w w.
Proof. exists []. by rewrite app_nil_r. Qed.

Lemma grows_by_trans ok w1 w2 w3 :
  grows_by ok w1 w2 -> grows_by ok w2 w3 -> grows_by ok w1 w3.
Proof.
  intros (e1 & H1 & F1) (e2 & H2 & F2). exists (e1 ++ e2).
  rewrite H2, H1, app_assoc. split; [done|]. by apply Forall_app.
Qed.

Lemma grows_by_weaken (ok ok' : event -> bool) w w' :
  (forall ev, ok ev = true -> ok' ev = true) ->
  grows_by ok w w' -> grows_by ok' w w'.
Proof.
  intros Hok (evs & H & F). exists evs. split; [done|].
  eapply Forall_impl; [exact F|]. exact Hok.
Qed.

Lemma grows_by_events ok w evs ds :
  Forall (fun ev => ok ev = true) evs ->
  grows_by ok w (MkWorld (history w ++ evs) ds).
Proof. intros F. by exists evs. Qed.

(** A projection of the history that is blind to the events in between
    does not change. *)
Lemma grows_by_blind {A} (ok : event -> bool) (f : event -> option A) w w' :
  (forall ev, ok ev = true -> f ev = None) ->
  grows_by ok w w' -> omap f (history w') = omap f (history w).
Proof.
  intros Hf (evs & -> & F). rewrite omap_app.
  assert (omap f evs = []) as ->; [|by rewrite app_nil_r].
  induction F as [|ev evs Hev _ IH]; [done|]. simpl. by rewrite (Hf _ Hev).
Qed.

Ltac solve_grows :=
  repeat first
    [ apply grows_by_refl
    | apply grows_by_events; repeat constructor
    | rewrite <- !app_assoc; simpl ].

Section Downloads.
Variable E : Env.

Lemma downloadGSURL_eq bkt obj w :
  downloadGSURL E bkt obj w =
    let h1 := history w ++ [EvNewClient] in
    let h2 := h1 ++ [EvNewReader bkt obj] in
    match storage_NewClient E (history w) with
    | Some msg => (Err (ErrCreateClient msg), MkWorld h1 (tempdirs w))
    | None =>
        match obj_NewReader E h1 bkt obj with
        | Some msg => (Err (LibError msg), MkWorld h2 (tempdirs w))
        | None =>
            (to_result (buf_ReadFrom E h2 bkt obj),
             MkWorld (h2 ++ [EvReadFrom bkt obj]) (tempdirs w))
        end
    end.
Proof.
  unfold downloadGSURL, bind, ask, record_event, ret. simpl.
  destruct (storage_NewClient E (history w)); [done|]. simpl.
  by destruct (obj_NewReader E _ bkt obj).
Qed.

(** X5. [downloadGSURL] returns a text exactly when the client could
    be made, the reader could be opened and the object could be read,
    and the text is what was read; when the client cannot be made the
    error says so and no reader is opened; in no case is a GET made or
    a temporary directory touched. *)
Theorem downloadGSURL_result (bkt obj : string) (w : World) :
  let r := downloadGSURL E bkt obj w in
  let h1 := history w ++ [EvNewClient] in
  (forall data,
     fst r = Ok data <->
     storage_NewClient E (history w) = None /\
     obj_NewReader E h1 bkt obj = None /\
     buf_ReadFrom E (h1 ++ [EvNewReader bkt obj]) bkt obj = Done data) /\
  (forall msg,
     storage_NewClient E (history w) = Some msg ->
     fst r = Err (ErrCreateClient msg) /\
     storage_reads (history (snd r)) = storage_reads (history w)) /\
  http_gets (history (snd r)) = http_gets (history w) /\
  tempdirs (snd r) = tempdirs w.
Proof.
  intros r h1. subst r h1. rewrite downloadGSURL_eq. cbn zeta.
  destruct (storage_NewClient E (history w)) as [msg|]; simpl.
  { rewrite http_gets_app, storage_reads_app. simpl. rewrite !app_nil_r.
    split_and!; try done.
    - intros data. split; [done|]. by intros (? & _).
    - by intros ? [= <-]. }
  destruct (obj_NewReader E _ bkt obj) as [msg|]; simpl.
  { rewrite !http_gets_app. simpl. rewrite !app_nil_r.
    split_and!; try done. intros data. split; [done|]. by intros (_ & ? & _). }
  rewrite !http_gets_app. simpl. rewrite !app_nil_r.
  split_and!; try done. intros data.
  destruct (buf_ReadFrom E _ bkt obj) as [d|msg]; simpl.
  - split; [by intros [= <-]|]. by intros (_ & _ & [= <-]).
  - split; [done|]. by intros (_ & _ & ?).
Qed.

Lemma downloadGSURL_grows bkt obj w :
  grows_by is_fetch_event w (snd (downloadGSURL E bkt obj w)) /\
  tempdirs (snd (downloadGSURL E bkt obj w)) = tempdirs w.
Proof.
  rewrite downloadGSURL_eq. cbn zeta.
  destruct (storage_NewClient E (history w)); simpl; [split; [solve_grows|done]|].
  destruct (obj_NewReader E _ bkt obj); simpl; split; solve_grows; done.
Qed.

Lemma downloadURL_grows p w :
  grows_by is_fetch_event w (snd (downloadURL E p w)) /\
  tempdirs (snd (downloadURL E p w)) = tempdirs w.
Proof.
  rewrite downloadURL_eq.
  destruct (http_Get E (history w) p); simpl; split; solve_grows; done.
Qed.

Lemma downloadScript_eq path w :
  downloadScript E path w =
    let (bkt, obj) := findMatch path in
    if negb (String.eqb bkt "") && negb (String.eqb obj "") then
      match downloadGSURL E bkt obj w with
      | (Ok script, w1) => (Ok script, w1)
      | (Err e, w1) => downloadURL E path (fallback_logged e w1)
      end
    else downloadURL E path w.
Proof.
  unfold downloadScript. destruct (findMatch path) as [bkt obj].
  destruct (_ && _); [|done]. unfold bind at 1.
  destruct (downloadGSURL E bkt obj w) as [[script|e] w1]; [done|].
  unfold log, bind, record_event, fallback_logged. simpl.
  by rewrite <- app_assoc.
Qed.

Lemma downloadScript_grows path w :
  grows_by is_fetch_event w (snd (downloadScript E path w)) /\
  tempdirs (snd (downloadScript E path w)) = tempdirs w.
Proof.
  rewrite downloadScript_eq. destruct (findMatch path) as [bkt obj].
  destruct (_ && _); [|apply downloadURL_grows].
  destruct (downloadGSURL_grows bkt obj w) as [Hg Ht].
  destruct (downloadGSURL E bkt obj w) as [[script|e] w1]; simpl in Hg, Ht;
    [done|].
  destruct (downloadURL_grows path (fallback_logged e w1)) as [Hg2 Ht2].
  split; [|by rewrite Ht2].
  eapply grows_by_trans; [exact Hg|]. eapply grows_by_trans; [|exact Hg2].
  unfold fallback_logged. solve_grows.
Qed.

(** X6. When the matcher finds a bucket and an object and the
    authenticated read succeeds, [downloadScript] returns the text read
    from storage: the object is read once, no GET is made and nothing
    is logged about a fallback. *)
Theorem downloadScript_authenticated (path bkt obj script : string) (w w1 : World) :
  findMatch path = (bkt, obj) -> bkt <> "" -> obj <> "" ->
  downloadGSURL E bkt obj w = (Ok script, w1) ->
  downloadScript E path w = (Ok script, w1) /\
  history w1 = history w ++ [EvNewClient; EvNewReader bkt obj; EvReadFrom bkt obj] /\
  http_gets (history w1) = http_gets (history w) /\
  storage_reads (history w1) = storage_reads (history w) ++ [(bkt, obj)].
Proof.
  intros Hm Hb Ho Hgs. rewrite downloadScript_eq, Hm.
  destruct (String.eqb_spec bkt ""); [done|].
  destruct (String.eqb_spec obj ""); [done|]. simpl. rewrite Hgs.
  split; [done|]. rewrite downloadGSURL_eq in Hgs. cbn zeta in Hgs.
  destruct (storage_NewClient E (history w)); [done|].
  destruct (obj_NewReader E _ bkt obj); [done|].
  injection Hgs as _ <-. simpl. rewrite <- !app_assoc. simpl.
  rewrite http_gets_app, storage_reads_app. simpl. by rewrite app_nil_r.
Qed.

(** X7. A fetch is nothing but a fetch: whatever the reference and
    whatever the answers, the events of [downloadScript] are calls to
    storage, GETs, readings of a body and lines logged with [Infof]; no
    process is started, no metadata is requested, and the temporary
    directories are as they were. *)
Theorem downloadScript_only_fetches (path : string) (w : World) :
  let w' := snd (downloadScript E path w) in
  (exists evs, history w' = history w ++ evs /\
               Forall (fun ev => is_fetch_event ev = true) evs) /\
  processes (history w') = processes (history w) /\
  metadata_requests (history w') = metadata_requests (history w) /\
  tempdirs w' = tempdirs w.
Proof.
  intros w'. subst w'. destruct (downloadScript_grows path w) as [Hg Ht].
  split_and!; [exact Hg| | |exact Ht].
  - apply (grows_by_blind is_fetch_event); [|exact Hg]. by intros [[]| | | | | | | | | | | |].
  - apply (grows_by_blind is_fetch_event); [|exact Hg]. by intros [[]| | | | | | | | | | | |].
Qed.

Lemma getMetadata_eq w :
  getMetadata E w =
    let h1 := history w ++
              [EvMetadataRequest (metadataServer +:+ metadataHang)
                                 ("Metadata-Flavor", "Google")] in
    match client_Do E (history w) with
    | Failed msg => (Err (LibError msg), MkWorld h1 (tempdirs w))
    | Done resp =>
        (match Body resp with
         | Failed msg => Err (LibError msg)
         | Done md => to_result (json_Unmarshal E md)
         end, MkWorld (h1 ++ [EvReadAll]) (tempdirs w))
    end.
Proof.
  unfold getMetadata, bind, ask, record_event, ret. simpl.
  destruct (client_Do E (history w)) as [[code [md|msg]]|msg]; done.
Qed.

(** X8. [getMetadata] makes one request, to the attributes of the
    instance with the recursive JSON query and the [Metadata-Flavor]
    header, and nothing else but read the body.  It returns a map
    exactly when the request got a response, of whatever status code,
    whose body could be read and decoded, and the map is the decoded
    one. *)
Theorem getMetadata_result (w : World) :
  let r := getMetadata E w in
  (forall md,
     fst r = Ok md <->
     exists code body,
       client_Do E (history w) = Done (MkResponse code (Done body)) /\
       json_Unmarshal E body = Done md) /\
  metadata_requests (history (snd r))
    = metadata_requests (history w) ++
      [("http://metadata.google.internal/computeMetadata/v1/instance/attributes/?recursive=true&alt=json&timeout_sec=10&last_etag=NONE",
        ("Metadata-Flavor", "Google"))] /\
  processes (history (snd r)) = processes (history w) /\
  http_gets (history (snd r)) = http_gets (history w) /\
  tempdirs (snd r) = tempdirs w.
Proof.
  intros r. subst r. rewrite getMetadata_eq. cbn zeta.
  destruct (client_Do E (history w)) as [[code [body|msg]]|msg]; simpl;
    unfold metadata_requests, processes, http_gets;
    rewrite ?omap_app; simpl; rewrite ?app_nil_r;
    (split_and!; try done); intros md.
  - destruct (json_Unmarshal E body) as [m|msg] eqn:Hj; simpl.
    + split; [intros [= <-]; eauto|]. intros (c & b & [= <- <-] & Hb). congruence.
    + split; [done|]. intros (c & b & [= <- <-] & Hb). congruence.
  - split; [done|]. by intros (c & b & [=] & _).
  - split; [done|]. by intros (c & b & [=] & _).
Qed.

End Downloads.

(** A [gs://] reference that storage answers. *)
Lemma downloadScript_authenticated_witness :
  fst (downloadScript all_fine "gs://bkt/dir/run.ps1" nothing_yet)
    = Ok "Write-Output fetched" /\
  http_gets (history (snd (downloadScript all_fine "gs://bkt/dir/run.ps1" nothing_yet)))
    = [].
Proof.
  destruct (downloadScript_authenticated all_fine "gs://bkt/dir/run.ps1"
              "bkt" "dir/run.ps1" "Write-Output fetched" nothing_yet
              (snd (downloadGSURL all_fine "bkt" "dir/run.ps1" nothing_yet)))
    as (Heq & _ & Hg & _).
  - vm_compute. reflexivity.
  - done.
  - done.
  - vm_compute. reflexivity.
  - rewrite Heq. split; [reflexivity|exact Hg].
Defined.

(** * More on the resolution of a URL record *)

Lemma has_prefix_len p s : has_prefix p s = true -> (len p <= len s)%nat.
Proof.
  revert s. induction p as [|a p IH]; intros [|b s]; simpl; try done; [lia|].
  destruct (Ascii.eqb a b); [|done]. intros H%IH. lia.
Qed.

Lemma has_prefix_stake p n s :
  has_prefix p (stake n s) = true -> has_prefix p s = true.
Proof.
  revert n s. induction p as [|a p IH]; intros [|n] [|b s]; simpl; try done.
  destruct (Ascii.eqb a b); [|done]. apply IH.
Qed.

Lemma space_runes_len e : e ∈ space_runes -> (1 <= len e)%nat.
Proof.
  unfold space_runes. intros H.
  repeat (apply elem_of_cons in H as [->|H]; [vm_compute; lia|]).
  by apply elem_of_nil in H.
Qed.

Lemma filter_head {A} (P : A -> Prop) `{!forall x, Decision (P x)} (l : list A) x l' :
  filter P l = x :: l' -> x ∈ l /\ P x.
Proof.
  intros Hf. assert (x ∈ filter P l) as Hx by (rewrite Hf; left).
  by apply list_elem_of_filter in Hx as [? ?].
Qed.

Lemma strip_space_prefix_shorter s s' :
  strip_space_prefix s = Some s' -> (len s' < len s)%nat.
Proof.
  unfold strip_space_prefix.
  destruct (filter _ space_runes) as [|e l] eqn:Hf; [done|]. intros [= <-].
  apply filter_head in Hf as [He Hp]. apply space_runes_len in He.
  apply has_prefix_len in Hp. rewrite len_sdrop. lia.
Qed.

Lemma strip_space_suffix_shorter s s' :
  strip_space_suffix s = Some s' -> (len s' < len s)%nat.
Proof.
  unfold strip_space_suffix.
  destruct (filter _ space_runes) as [|e l] eqn:Hf; [done|]. intros [= <-].
  apply filter_head in Hf as [He Hp]. apply space_runes_len in He.
  unfold has_suffix in Hp. apply andb_prop in Hp as [Hl%Nat.leb_le _].
  rewrite len_stake. lia.
Qed.

(** Trimming stops at a string that starts (ends) with no white space. *)
Lemma trim_left_done fuel s :
  (len s <= fuel)%nat -> strip_space_prefix (trim_left fuel s) = None.
Proof.
  revert s. induction fuel as [|fuel IH]; intros s Hlen; simpl.
  - destruct s; [vm_compute; reflexivity|simpl in Hlen; lia].
  - destruct (strip_space_prefix s) as [s'|] eqn:Hs; [|done].
    apply IH. apply strip_space_prefix_shorter in Hs. lia.
Qed.

Lemma trim_right_done fuel s :
  (len s <= fuel)%nat -> strip_space_suffix (trim_right fuel s) = None.
Proof.
  revert s. induction fuel as [|fuel IH]; intros s Hlen; simpl.
  - destruct s; [vm_compute; reflexivity|simpl in Hlen; lia].
  - destruct (strip_space_suffix s) as [s'|] eqn:Hs; [|done].
    apply IH. apply strip_space_suffix_shorter in Hs. lia.
Qed.

Lemma trim_left_id fuel s : strip_space_prefix s = None -> trim_left fuel s = s.
Proof. intros H. destruct fuel; [done|]. simpl. by rewrite H. Qed.

Lemma trim_right_id fuel s : strip_space_suffix s = None -> trim_right fuel s = s.
Proof. intros H. destruct fuel; [done|]. simpl. by rewrite H. Qed.

Lemma strip_space_prefix_None s :
  strip_space_prefix s = None <->
  forall e, e ∈ space_runes -> has_prefix e s = false.
Proof.
  unfold strip_space_prefix. split.
  - destruct (filter _ space_runes) as [|e0 l] eqn:Hf; [|done]. intros _ e He.
    destruct (has_prefix e s) eqn:Hp; [|done].
    assert (e ∈ filter (fun e => has_prefix e s = true) space_runes) as Hin
      by (by apply list_elem_of_filter).
    rewrite Hf in Hin. by apply elem_of_nil in Hin.
  - intros H. destruct (filter _ space_runes) as [|e0 l] eqn:Hf; [done|].
    apply filter_head in Hf as [He Hp]. by rewrite (H _ He) in Hp.
Qed.

(** Taking white space off the end leaves the start as it is. *)
Lemma trim_right_keeps_start fuel s :
  strip_space_prefix s = None -> strip_space_prefix (trim_right fuel s) = None.
Proof.
  revert s. induction fuel as [|fuel IH]; intros s Hs; simpl; [done|].
  destruct (strip_space_suffix s) as [s'|] eqn:Hs'; [|done]. apply IH.
  unfold strip_space_suffix in Hs'.
  destruct (filter _ space_runes) as [|e l]; [done|]. injection Hs' as <-.
  apply strip_space_prefix_None. intros e' He'.
  destruct (has_prefix e' (stake _ s)) eqn:Hp; [|done].
  apply has_prefix_stake in Hp.
  by rewrite (proj1 (strip_space_prefix_None s) Hs _ He') in Hp.
Qed.

Lemma TrimSpace_trimmed s :
  strip_space_prefix (TrimSpace s) = None /\
  strip_space_suffix (TrimSpace s) = None.
Proof.
  unfold TrimSpace. cbn zeta. split.
  - apply trim_right_keeps_start, trim_left_done. lia.
  - apply trim_right_done. lia.
Qed.

Lemma TrimSpace_idempotent s : TrimSpace (TrimSpace s) = TrimSpace s.
Proof.
  destruct (TrimSpace_trimmed s) as [Hl Hr].
  unfold TrimSpace at 1. cbn zeta. rewrite (trim_left_id _ _ Hl).
  by apply trim_right_id.
Qed.

Section MoreRun.
Variable E : Env.

(** X9. White space around the value of a URL record does not matter:
    the record is resolved and run as the record with the trimmed
    value is. *)
Theorem run_url_trims (n : nat) (s label : string) (w : World) :
  run E n (MkScript url s label) w
  = run E n (MkScript url (TrimSpace s) label) w.
Proof.
  destruct n as [|n]; [done|].
  rewrite !(run_url_eq E n (MkScript url _ label) w eq_refl). cbn zeta.
  simpl Script. by rewrite TrimSpace_idempotent.
Qed.

Lemma runner_grows ms w :
  grows_by is_runner_event w (snd (runner E ms w)).
Proof.
  rewrite runner_eq, tempFile_eq. cbn zeta.
  destruct (os_TempDir E (history w)) as [dir|msg]; [|solve_grows].
  destruct (os_WriteFile E _ _ _) as [msg|]; simpl; [solve_grows|].
  rewrite runCmd_eq. cbn zeta. simpl.
  destruct (os_Pipe E _); simpl; [solve_grows|].
  destruct (cmd_Start E _ _); simpl; [solve_grows|].
  rewrite <- !app_assoc. simpl. apply grows_by_events.
  repeat (apply Forall_cons; split; [done|]).
  apply Forall_app. split; [|by repeat constructor].
  apply Forall_forall. by intros ev (l & -> & _)%list_elem_of_fmap.
Qed.

Definition is_run_event (ev : event) : bool :=
  is_fetch_event ev || is_runner_event ev.

(** All that [run] does is fetch and run. *)
Lemma run_grows n ms w : grows_by is_run_event w (snd (run E n ms w)).
Proof.
  destruct n as [|n]; [apply grows_by_refl|].
  assert (forall ms' w', Type_ ms' = ps1 \/ Type_ ms' = cmd \/ Type_ ms' = bat ->
            forall k, grows_by is_run_event w' (snd (run E (S k) ms' w'))) as Hc.
  { intros ms' w' Hty k. rewrite (run_concrete _ _ _ _ Hty). simpl.
    eapply grows_by_weaken; [|apply runner_grows].
    intros ev Hev. unfold is_run_event. by rewrite Hev, orb_true_r. }
  destruct (script_type_cases (Type_ ms)) as [Hty|[Hu|(H1 & H2 & H3 & H4)]].
  - by apply Hc.
  - rewrite (run_url_eq _ _ _ _ Hu). cbn zeta.
    destruct (len (TrimSpace (Script ms)) <? 3)%nat; [apply grows_by_refl|].
    destruct (script_type_of _) as [st|] eqn:Hst; [|apply grows_by_refl].
    destruct (downloadScript_grows E (TrimSpace (Script ms)) w) as [Hg _].
    assert (grows_by is_run_event w (snd (downloadScript E (TrimSpace (Script ms)) w)))
      as Hg'.
    { eapply grows_by_weaken; [|exact Hg]. intros ev Hev.
      unfold is_run_event. by rewrite Hev. }
    destruct (downloadScript E _ w) as [[script|e] w1]; simpl in Hg'; [|done].
    apply script_type_of_concrete in Hst.
    destruct n as [|n]; [done|].
    eapply grows_by_trans; [exact Hg'|]. by apply Hc.
  - rewrite run_undefined_type by done. apply grows_by_refl.
Qed.

(** X21. Whatever the record and the answers of the world, [run]
    fetches and runs and does nothing else: each of its events is a
    call to storage, a GET, the reading of a body, a line logged with
    [Infof], or an event of a runner (directory, file, pipe, process,
    output line, removal); it asks the metadata server nothing. *)
Theorem run_fetches_and_runs (n : nat) (ms : metadataScript) (w : World) :
  (exists evs, history (snd (run E n ms w)) = history w ++ evs /\
               Forall (fun ev => is_run_event ev = true) evs) /\
  metadata_requests (history (snd (run E n ms w))) = metadata_requests (history w).
Proof.
  split; [apply run_grows|].
  apply (grows_by_blind is_run_event); [|apply run_grows].
  by intros [[]| | | | | | | | | | | |].
Qed.

(** X10. When the fetch of a classified URL record fails, [run]
    returns the error of the fetch and runs nothing: no temporary
    directory is made, no file is written and no process is started. *)
Theorem run_fetch_failure_runs_nothing (n : nat) (ms : metadataScript)
    (w w1 : World) (st : metadataScriptType) (e : error) :
  Type_ ms = url ->
  (3 <= len (TrimSpace (Script ms)))%nat ->
  script_type_of (sdrop (len (TrimSpace (Script ms)) - 3) (TrimSpace (Script ms)))
    = Some st ->
  downloadScript E (TrimSpace (Script ms)) w = (Err e, w1) ->
  run E (S n) ms w = (Some (Returned (Some e)), w1) /\
  tempdirs w1 = tempdirs w /\
  processes (history w1) = processes (history w) /\
  omap (fun ev => match ev with
                  | EvTempDir p => Some p
                  | EvWriteFile p _ => Some p
                  | _ => None
                  end) (history w1)
  = omap (fun ev => match ev with
                    | EvTempDir p => Some p
                    | EvWriteFile p _ => Some p
                    | _ => None
                    end) (history w).
Proof.
  intros Hu Hlen Hst Hdl. rewrite (run_url_eq _ _ _ _ Hu). cbn zeta.
  destruct (Nat.ltb_spec (len (TrimSpace (Script ms))) 3); [lia|].
  rewrite Hst, Hdl. split; [done|].
  destruct (downloadScript_grows E (TrimSpace (Script ms)) w) as [Hg Ht].
  rewrite Hdl in Hg, Ht. simpl in Hg, Ht. split_and!; [done| |].
  - apply (grows_by_blind is_fetch_event); [|exact Hg].
    by intros [[]| | | | | | | | | | | |].
  - apply (grows_by_blind is_fetch_event); [|exact Hg].
    by intros [[]| | | | | | | | | | | |].
Qed.

(** X11. The runner of a record starts at most one process, and only
    after the script has been written to its file in the new
    directory: the process, if there is one, is the command of the
    record's type on that very file. *)
Theorem runner_starts_written_file (ms : metadataScript) (w : World) :
  Type_ ms = ps1 \/ Type_ ms = cmd \/ Type_ ms = bat ->
  exists started,
    processes (history (snd (run E 1 ms w))) = processes (history w) ++ started /\
    (started = [] \/
     exists dir,
       os_TempDir E (history w) = Done dir /\
       os_WriteFile E (history w ++ [EvTempDir "metadata-scripts"])
         (filepath_Join E dir (Metadata ms +:+ runner_ext ms)) (Script ms) = None /\
       started = [runner_argv ms (filepath_Join E dir (Metadata ms +:+ runner_ext ms))]).
Proof.
  intros Hty. rewrite (run_concrete _ _ _ _ Hty), runner_eq, tempFile_eq.
  cbn zeta.
  destruct (os_TempDir E (history w)) as [dir|msg] eqn:Hd; simpl.
  2:{ exists []. rewrite processes_app. simpl. rewrite ?app_nil_r. auto. }
  destruct (os_WriteFile E _ _ _) as [msg|] eqn:Hw; simpl.
  { exists []. rewrite !processes_app. simpl. rewrite ?app_nil_r. auto. }
  rewrite runCmd_eq. cbn zeta. simpl.
  destruct (os_Pipe E _); simpl.
  { exists []. rewrite !processes_app. simpl. rewrite ?app_nil_r. auto. }
  destruct (cmd_Start E _ _); simpl.
  { exists [runner_argv ms (filepath_Join E dir (Metadata ms +:+ runner_ext ms))].
    rewrite !processes_app. simpl. rewrite !app_nil_r.
    split; [done|]. right. eauto. }
  exists [runner_argv ms (filepath_Join E dir (Metadata ms +:+ runner_ext ms))].
  rewrite !processes_app, processes_logged. simpl. rewrite !app_nil_r.
  split; [done|]. right. eauto.
Qed.

End MoreRun.

(** A URL whose storage read and whose GET both fail. *)
Lemma run_fetch_failure_runs_nothing_witness :
  let E := scripted (Done a_tempdir) None (Exited 0)
             (Failed "storage: object doesn't exist")
             (Failed "Get: no such host") (Done ∅) in
  let ms := MkScript url "gs://bkt/run.ps1" "windows-startup-script-url" in
  fst (run E 2 ms nothing_yet) = Some (Returned (Some (LibError "Get: no such host"))) /\
  processes (history (snd (run E 2 ms nothing_yet))) = [].
Proof.
  intros E ms.
  destruct (run_fetch_failure_runs_nothing E 1 ms nothing_yet
              (snd (downloadScript E "gs://bkt/run.ps1" nothing_yet))
              ps1 (LibError "Get: no such host")) as (Hrun & _ & Hp & _).
  - reflexivity.
  - vm_compute. lia.
  - vm_compute. reflexivity.
  - vm_compute. reflexivity.
  - rewrite Hrun. split; [reflexivity|exact Hp].
Defined.

(** A bat record in a world where everything works. *)
Lemma runner_starts_written_file_witness :
  processes (history (snd (run all_fine 1
      (MkScript bat "echo hi" "windows-startup-script-bat") nothing_yet)))
  = [[a_tempdir +:+ "\windows-startup-script-bat.bat"]].
Proof.
  destruct (runner_starts_written_file all_fine
              (MkScript bat "echo hi" "windows-startup-script-bat") nothing_yet)
    as (started & Hp & Hs).
  - right. right. reflexivity.
  - rewrite Hp. destruct Hs as [->|(dir & Hd & _ & ->)].
    + exfalso. vm_compute in Hp. discriminate Hp.
    + injection Hd as <-. reflexivity.
Defined.

(** * More on the loop and on [main] *)

(** The lines that the loop itself logs: an announcement and a status
    per script. *)
Definition loop_lines (h : list event) : list log_call :=
  omap (fun ev => match ev with
                  | EvLog (Infoln args) => Some (Infoln args)
                  | EvLog (Error args) => Some (Error args)
                  | _ => None
                  end) h.


(** The status line for what [run] returned. *)
Definition status_line (script : metadataScript) (err : option error) : log_call :=
  match err with
  | Some (ExitError status) => Infoln [Str (Metadata script); ErrArg (ExitError status)]
  | None => Infoln [Str (Metadata script); Str "exit status 0"]
  | Some e => Error [ErrArg e]
  end.


Section MoreLoop.
Variable E : Env.

Lemma runScripts_cons fuel script rest w :
  runScripts E fuel (script :: rest) w =
    match run E fuel script (announced script w) with
    | (None, w1) => (None, w1)
    | (Some Panicked, w1) => (Some Unwound, w1)
    | (Some (Returned err), w1) =>
        runScripts E fuel rest
          (MkWorld (history w1 ++ [EvLog (status_line script err)]) (tempdirs w1))
    end.
Proof.
  cbn [runScripts]. unfold bind at 1, log, record_event.
  unfold bind at 1. fold (announced script w).
  destruct (run E fuel script (announced script w)) as [[[err|]|] w1]; try done.
  by destruct err as [[status|msg|p q|s|c|]|].
Qed.




End MoreLoop.

Section MoreMain.
Variable E : Env.

Lemma getScripts_eq mdsm w :
  getScripts E mdsm w =
    match getMetadata E w with
    | (Err e, w1) => (Err e, w1)
    | (Ok md, w1) => (Ok (parseMetadata mdsm md), w1)
    end.
Proof.
  unfold getScripts, bind, ret. by destruct (getMetadata E w) as [[md|e] w1].
Qed.

(** The events of the request for the metadata. *)
Definition is_metadata_event (ev : event) : bool :=
  match ev with
  | EvMetadataRequest _ _ | EvReadAll => true
  | _ => false
  end.

Lemma getMetadata_grows w :
  grows_by is_metadata_event w (snd (getMetadata E w)) /\
  tempdirs (snd (getMetadata E w)) = tempdirs w.
Proof.
  rewrite getMetadata_eq. cbn zeta.
  destruct (client_Do E (history w)); simpl; split; solve_grows; done.
Qed.

(** The world after a line logged with [Infof] about the phase. *)
Definition informed (format : string) (args : list string) (w : World) : World :=
  MkWorld (history w ++ [EvLog (Infof format [Str (nth 1 args "")])]) (tempdirs w).

Lemma main_eq fuel args w :
  main E fuel args w =
    match validateArgs args with
    | Err err =>
        (Some (ExitCode 1),
         MkWorld (history w ++ [EvLog (Init "GCEMetadataScripts" "COM1");
                                EvLog (Println [ErrArg err])]) (tempdirs w))
    | Ok metadata =>
        match getScripts E metadata (started E args w) with
        | (Err err, w1) =>
            (Some (ExitCode 1),
             MkWorld (history w1 ++ [EvLog (Println [ErrArg err]);
                                     EvLog (Fatal [ErrArg err])]) (tempdirs w1))
        | (Ok l, w1) =>
            if (length l =? 0)%nat then
              (Some (ExitCode 0), informed "No %s scripts to run." args w1)
            else
              match runScripts E fuel l w1 with
              | (None, w2) => (None, w2)
              | (Some Unwound, w2) => (Some Crashed, w2)
              | (Some Completed, w2) =>
                  (Some (ExitCode 0), informed "Finished running %s scripts." args w2)
              end
        end
    end.
Proof.
  unfold main, bind, log, record_event, logger_Fatal, bind, log, record_event, ret.
  simpl. destruct (validateArgs args) as [metadata|err].
  2:{ cbn [history tempdirs]. by rewrite <- app_assoc. }
  cbn [history tempdirs]. rewrite <- app_assoc. simpl app. fold (started E args w).
  destruct (getScripts E metadata (started E args w)) as [[l|err] w1].
  2:{ cbn [history tempdirs]. by rewrite <- app_assoc. }
  destruct (length l =? 0)%nat; [done|].
  by destruct (runScripts E fuel l w1) as [[[|]|] w2].
Qed.

Lemma parseMetadata_nil (mdsm : gmap Z string) (md : gmap string string) :
  (forall st name, mdsm !! st = Some name ->
     md !! name = None \/ md !! name = Some "") ->
  parseMetadata mdsm md = [].
Proof.
  intros Hempty. rewrite parseMetadata_omap.
  assert (forall st, st ∈ merge_sort Z.le (map_to_list mdsm).*1 ->
            visit_in mdsm md st = None) as Hnone.
  { intros st Hst. rewrite merge_sort_Permutation in Hst.
    apply list_elem_of_fmap in Hst as ([st' name] & -> & Hin).
    apply elem_of_map_to_list in Hin. unfold visit_in. simpl. rewrite Hin. simpl.
    destruct (Hempty _ _ Hin) as [H|H]; rewrite H; reflexivity. }
  induction (merge_sort Z.le _) as [|st keys IH]; [done|]. simpl.
  rewrite (Hnone st) by left. apply IH. intros st' Hst'. apply Hnone. by right.
Qed.

(** X14. With arguments that are not a program name followed by one
    of the three commands, [main] prints the error and exits with
    status 1: it asks the metadata server nothing, starts no process
    and touches no temporary directory. *)
Theorem main_bad_arguments (fuel : nat) (args : list string) (w : World) :
  (forall prog phase, args = [prog; phase] -> phase ∉ commands) ->
  main E fuel args w =
    (Some (ExitCode 1),
     MkWorld (history w ++ [EvLog (Init "GCEMetadataScripts" "COM1");
                            EvLog (Println [ErrArg ErrNoValidArgs])]) (tempdirs w)).
Proof.
  intros Hbad. rewrite main_eq.
  destruct (validateArgs args) as [mdsm|err] eqn:Hv.
  - destruct args as [|prog [|phase [|x args]]]; try done.
    apply validateArgs_phase in Hv as [Hph _]. by destruct (Hbad prog phase).
  - assert (err = ErrNoValidArgs) as ->; [|done].
    destruct args as [|prog [|phase [|x args]]]; unfold validateArgs in Hv;
      try congruence.
    unfold commands in Hv. cbn [validateArgs_range] in Hv.
    repeat match type of Hv with
           | context [String.eqb ?a ?b] => destruct (String.eqb a b)
           end; congruence.
Qed.

(** X15. When the metadata cannot be fetched, [main] prints the
    error, logs it as fatal and exits with status 1, without making a
    temporary directory or starting a process. *)
Theorem main_fetch_failure (fuel : nat) (args : list string) (w w1 : World)
    (mdsm : gmap Z string) (e : error) :
  validateArgs args = Ok mdsm ->
  getMetadata E (started E args w) = (Err e, w1) ->
  main E fuel args w =
    (Some (ExitCode 1),
     MkWorld (history w1 ++ [EvLog (Println [ErrArg e]); EvLog (Fatal [ErrArg e])])
             (tempdirs w1)) /\
  processes (history (snd (main E fuel args w))) = processes (history w) /\
  tempdirs (snd (main E fuel args w)) = tempdirs w.
Proof.
  intros Hv Hget. rewrite main_eq, Hv, getScripts_eq, Hget. split; [done|].
  destruct (getMetadata_grows (started E args w)) as [Hg Ht].
  rewrite Hget in Hg, Ht. simpl in Hg, Ht. simpl. rewrite processes_app. simpl.
  rewrite app_nil_r, Ht. split; [|done].
  assert (processes (history w1) = processes (history (started E args w))) as ->.
  { apply (grows_by_blind is_metadata_event); [|exact Hg].
    by intros [[]| | | | | | | | | | | |]. }
  unfold started. simpl. rewrite processes_app. simpl. by rewrite app_nil_r.
Qed.

(** X16. When no key of the phase is populated in the metadata (each
    is absent or maps to the empty string), [main] logs that there is
    nothing to run and exits with status 0, without making a temporary
    directory or starting a process. *)
Theorem main_without_scripts (fuel : nat) (args : list string) (w w1 : World)
    (mdsm : gmap Z string) (md : gmap string string) :
  validateArgs args = Ok mdsm ->
  getMetadata E (started E args w) = (Ok md, w1) ->
  (forall st name, mdsm !! st = Some name ->
     md !! name = None \/ md !! name = Some "") ->
  main E fuel args w
    = (Some (ExitCode 0), informed "No %s scripts to run." args w1) /\
  processes (history (snd (main E fuel args w))) = processes (history w) /\
  tempdirs (snd (main E fuel args w)) = tempdirs w.
Proof.
  intros Hv Hget Hempty.
  rewrite main_eq, Hv, getScripts_eq, Hget, (parseMetadata_nil _ _ Hempty).
  split; [done|].
  destruct (getMetadata_grows (started E args w)) as [Hg Ht].
  rewrite Hget in Hg, Ht. simpl in Hg, Ht. simpl. rewrite processes_app. simpl.
  rewrite app_nil_r, Ht. split; [|done].
  assert (processes (history w1) = processes (history (started E args w))) as ->.
  { apply (grows_by_blind is_metadata_event); [|exact Hg].
    by intros [[]| | | | | | | | | | | |]. }
  unfold started. simpl. rewrite processes_app. simpl. by rewrite app_nil_r.
Qed.

(** The events of the loop: those of [run] and the lines logged. *)
Definition is_loop_event (ev : event) : bool :=
  is_run_event ev || match ev with EvLog _ => true | _ => false end.

Lemma runScripts_grows fuel l w :
  grows_by is_loop_event w (snd (runScripts E fuel l w)).
Proof.
  revert w. induction l as [|script rest IH]; intros w; [apply grows_by_refl|].
  rewrite runScripts_cons.
  assert (grows_by is_loop_event w (snd (run E fuel script (announced script w))))
    as Hg.
  { apply (grows_by_trans _ _ (announced script w)); [unfold announced; solve_grows|].
    eapply grows_by_weaken; [|apply run_grows].
    intros ev Hev. unfold is_loop_event. by rewrite Hev. }
  destruct (run E fuel script (announced script w)) as [[[err|]|] w1];
    simpl in Hg; try done.
  eapply grows_by_trans; [exact Hg|]. eapply grows_by_trans; [|apply IH].
  apply grows_by_events. by destruct err as [[status|msg|p q|s|c|]|]; repeat constructor.
Qed.

(** X17. [main] asks the metadata server at most once: once when the
    arguments are accepted, whatever the scripts then do, and never
    when they are refused. *)
Theorem main_requests_once (fuel : nat) (args : list string) (w : World) :
  metadata_requests (history (snd (main E fuel args w)))
  = metadata_requests (history w) ++
    match validateArgs args with
    | Ok _ => [(metadataServer +:+ metadataHang, ("Metadata-Flavor", "Google"))]
    | Err _ => []
    end.
Proof.
  rewrite main_eq. destruct (validateArgs args) as [mdsm|err]; simpl.
  2:{ unfold metadata_requests. rewrite omap_app. done. }
  assert (metadata_requests (history (snd (getScripts E mdsm (started E args w))))
          = metadata_requests (history w) ++
            [(metadataServer +:+ metadataHang, ("Metadata-Flavor", "Google"))])
    as Hreq.
  { rewrite getScripts_eq, getMetadata_eq. cbn zeta.
    destruct (client_Do E _) as [[code [body|msg]]|msg]; simpl;
      try destruct (json_Unmarshal E body); simpl;
      unfold metadata_requests; rewrite !omap_app; simpl;
      by rewrite ?app_nil_r. }
  destruct (getScripts E mdsm (started E args w)) as [[l|err] w1]; simpl in Hreq.
  2:{ simpl. unfold metadata_requests in *. rewrite omap_app, Hreq. simpl.
      by rewrite app_nil_r. }
  destruct (length l =? 0)%nat.
  { simpl. unfold metadata_requests in *. rewrite omap_app, Hreq. simpl.
    by rewrite app_nil_r. }
  assert (metadata_requests (history (snd (runScripts E fuel l w1)))
          = metadata_requests (history w1)) as Hloop.
  { apply (grows_by_blind is_loop_event); [|apply runScripts_grows].
    by intros [[]| | | | | | | | | | | |]. }
  destruct (runScripts E fuel l w1) as [[[|]|] w2]; simpl in *;
    unfold metadata_requests in *; rewrite ?omap_app, Hloop, Hreq; simpl;
    by rewrite ?app_nil_r.
Qed.

End MoreMain.



(** No command at all. *)
Lemma main_bad_arguments_witness :
  fst (main all_fine 2 ["GCEMetadataScripts.exe"] nothing_yet) = Some (ExitCode 1) /\
  metadata_requests
    (history (snd (main all_fine 2 ["GCEMetadataScripts.exe"] nothing_yet))) = [].
Proof.
  rewrite (main_bad_arguments all_fine 2 ["GCEMetadataScripts.exe"] nothing_yet).
  - split; reflexivity.
  - intros prog phase [=].
Defined.

(** The metadata server does not answer. *)
Definition no_metadata : Env :=
  scripted (Done a_tempdir) None (Exited 0) (Done "") (Failed "unused")
    (Failed "unexpected end of JSON input").

Lemma main_fetch_failure_witness :
  fst (main no_metadata 2 ["GCEMetadataScripts.exe"; "startup"] nothing_yet)
    = Some (ExitCode 1) /\
  processes
    (history (snd (main no_metadata 2 ["GCEMetadataScripts.exe"; "startup"]
                     nothing_yet))) = [].
Proof.
  destruct (main_fetch_failure no_metadata 2 ["GCEMetadataScripts.exe"; "startup"]
              nothing_yet
              (snd (getMetadata no_metadata
                      (started no_metadata ["GCEMetadataScripts.exe"; "startup"]
                         nothing_yet)))
              (phase_keys "startup")
              (LibError "unexpected end of JSON input")) as (Hmain & Hp & _).
  - vm_compute. reflexivity.
  - vm_compute. reflexivity.
  - rewrite Hmain in *. split; [reflexivity|exact Hp].
Defined.

(** Metadata with a key of another phase and an empty value. *)
Lemma main_without_scripts_witness :
  let E := scripted (Done a_tempdir) None (Exited 0) (Done "") (Failed "unused")
             (Done (<["windows-startup-script-ps1":="Write-Output hi"]>
                    (<["windows-shutdown-script-cmd":=""]> ∅))) in
  fst (main E 2 ["GCEMetadataScripts.exe"; "shutdown"] nothing_yet)
    = Some (ExitCode 0) /\
  processes (history (snd (main E 2 ["GCEMetadataScripts.exe"; "shutdown"]
                             nothing_yet))) = [].
Proof.
  intros E.
  destruct (main_without_scripts E 2 ["GCEMetadataScripts.exe"; "shutdown"]
              nothing_yet
              (snd (getMetadata E (started E ["GCEMetadataScripts.exe"; "shutdown"]
                                     nothing_yet)))
              (phase_keys "shutdown")
              (<["windows-startup-script-ps1":="Write-Output hi"]>
               (<["windows-shutdown-script-cmd":=""]> ∅))) as (Hmain & Hp & _).
  - vm_compute. reflexivity.
  - vm_compute. reflexivity.
  - intros st name Hk.
    assert (name = "windows-shutdown-script-ps1" \/
            name = "windows-shutdown-script-cmd" \/
            name = "windows-shutdown-script-bat" \/
            name = "windows-shutdown-script-url") as Hname.
    { unfold phase_keys in Hk.
      repeat (apply lookup_insert_Some in Hk as [[_ <-]|[_ Hk]];
              [vm_compute; tauto|]).
      by rewrite lookup_empty in Hk. }
    destruct Hname as [-> | [-> | [-> | ->]]]; vm_compute; tauto.
  - rewrite Hmain in *. split; [reflexivity|exact Hp].
Defined.

(** * More on the URL matcher *)

Lemma sapp_len_inv s t u v :
  len u = len v -> s +:+ u = t +:+ v -> s = t /\ u = v.
Proof.
  revert t. induction s as [|a s IH]; intros [|b t] Hlen H.
  - done.
  - apply (f_equal len) in H. rewrite sapp_nil_l, len_app in H. simpl in H. lia.
  - apply (f_equal len) in H. rewrite sapp_nil_l, len_app in H. simpl in H. lia.
  - rewrite !sapp_cons in H. injection H as -> H.
    destruct (IH t Hlen H) as [-> ->]. done.
Qed.

(** None of the three hosts of the path-style forms is a bucket
    followed by [.storage.googleapis.com]. *)
Lemma host_is_no_subdomain h b' :
  h ∈ ["storage.cloud.google.com"; "storage.googleapis.com";
       "commondatastorage.googleapis.com"] ->
  h <> b' +:+ ".storage.googleapis.com".
Proof.
  intros Hh Heq.
  apply elem_of_cons in Hh as [->|Hh].
  { change "storage.cloud.google.com" with ("s" +:+ "torage.cloud.google.com") in Heq.
    by apply sapp_len_inv in Heq as [_ ?]. }
  apply elem_of_cons in Hh as [->|Hh].
  { apply (f_equal len) in Heq. rewrite len_app in Heq. simpl in Heq. lia. }
  apply elem_of_cons in Hh as [->|Hh]; [|by apply elem_of_nil in Hh].
  change "commondatastorage.googleapis.com"
    with ("commondat" +:+ "astorage.googleapis.com") in Heq.
  by apply sapp_len_inv in Heq as [_ ?].
Qed.

Lemma Find_gs_none_h rest : FindStringSubmatch gsRegex (String "h" rest) = None.
Proof.
  destruct (FindStringSubmatch gsRegex _) as [m|] eqn:Hf; [|done].
  apply Find_gs_sound in Hf as (b & o & (t & Ht & Heq & _) & _).
  apply elem_of_cons in Ht as [->|Ht]; [|by apply elem_of_nil in Ht].
  by rewrite sapp_cons in Heq.
Qed.

Lemma alts_start_h t rest :
  t ∈ sub_alts \/ t ∈ cloud_alts \/ t ∈ apis_alts ->
  exists rest', t +:+ rest = String "h" rest'.
Proof.
  unfold sub_alts, cloud_alts, apis_alts. intros H.
  repeat lazymatch type of H with
         | _ \/ _ => destruct H as [H|H]
         end;
    repeat (apply elem_of_cons in H as [->|H]; [rewrite sapp_cons; eauto|]);
    by apply elem_of_nil in H.
Qed.

(** A path-style reference does not have the subdomain shape. *)
Lemma Find_subdomain_none t h rest :
  t ∈ sub_alts ->
  h ∈ ["storage.cloud.google.com"; "storage.googleapis.com";
       "commondatastorage.googleapis.com"] ->
  FindStringSubmatch gsHTTPRegex1 (t +:+ h +:+ String "/" rest) = None.
Proof.
  intros Ht Hh.
  destruct (FindStringSubmatch gsHTTPRegex1 _) as [m|] eqn:Hf; [|done].
  apply Find_subdomain_sound in Hf as (b & o & (t' & Ht' & Heq & Hb & _) & _).
  pose proof (sub_prefix_free _ _ _ _ Ht Ht' Heq) as <-.
  apply String.app_inj in Heq.
  change (b +:+ ".storage.googleapis.com/" +:+ o)
    with (b +:+ ".storage.googleapis.com" +:+ String "/" o) in Heq.
  rewrite <- (sapp_assoc b) in Heq.
  apply split_at_first in Heq as [Heq _].
  - by apply host_is_no_subdomain in Heq.
  - repeat (apply elem_of_cons in Hh as [->|Hh]; [reflexivity|]).
    by apply elem_of_nil in Hh.
  - by rewrite mem_app, is_bucket_no_slash.
Qed.

(** A reference on [storage.googleapis.com] (or its old name) does not
    have the shape of one on [storage.cloud.google.com]. *)
Lemma Find_cloud_none t rest :
  t ∈ apis_alts -> FindStringSubmatch gsHTTPRegex2 (t +:+ rest) = None.
Proof.
  intros Ht.
  destruct (FindStringSubmatch gsHTTPRegex2 _) as [m|] eqn:Hf; [|done].
  apply Find_cloud_sound in Hf as (b & o & (t' & Ht' & Heq & _) & _).
  unfold apis_alts in Ht. unfold cloud_alts in Ht'.
  repeat (apply elem_of_cons in Ht as [->|Ht];
          [repeat (apply elem_of_cons in Ht' as [->|Ht'];
                   [cbv in Heq; discriminate Heq|]);
           by apply elem_of_nil in Ht'|]).
  by apply elem_of_nil in Ht.
Qed.

(** X18. The documented forms of a storage URL do not shadow one
    another: a reference that has any of the four shapes, with bucket
    [b] and object [o], is matched with exactly that bucket and that
    object. *)
Theorem findMatch_any_shape (path b o : string) :
  shape_gs path b o \/ shape_subdomain path b o \/
  shape_cloud path b o \/ shape_apis path b o ->
  findMatch path = (b, o).
Proof.
  unfold findMatch. cbn [findMatch_range].
  intros [Hs|[Hs|[Hs|Hs]]].
  - by rewrite (Find_gs_complete _ _ _ Hs).
  - pose proof Hs as (t & Ht & -> & _).
    destruct (alts_start_h t (b +:+ ".storage.googleapis.com/" +:+ o))
      as [rest' Hr]; [by left|].
    rewrite Hr in *. rewrite Find_gs_none_h. simpl.
    by rewrite (Find_subdomain_complete _ _ _ Hs).
  - pose proof Hs as (t & Ht & -> & _).
    destruct (alts_start_h t (b +:+ "/" +:+ o)) as [rest' Hr]; [right; by left|].
    assert (FindStringSubmatch gsHTTPRegex1 (t +:+ b +:+ "/" +:+ o) = None) as Hsub.
    { unfold cloud_alts in Ht.
      apply elem_of_cons in Ht as [->|Ht].
      { apply (Find_subdomain_none "http://" "storage.cloud.google.com");
          [by left|by left]. }
      apply elem_of_cons in Ht as [->|Ht]; [|by apply elem_of_nil in Ht].
      apply (Find_subdomain_none "https://" "storage.cloud.google.com");
        [right; by left|by left]. }
    rewrite Hr in Hs |- *. rewrite Find_gs_none_h. rewrite <- Hr in Hs |- *.
    rewrite Hsub. simpl. by rewrite (Find_cloud_complete _ _ _ Hs).
  - pose proof Hs as (t & Ht & -> & _).
    destruct (alts_start_h t (b +:+ "/" +:+ o)) as [rest' Hr]; [right; by right|].
    assert (FindStringSubmatch gsHTTPRegex1 (t +:+ b +:+ "/" +:+ o) = None) as Hsub.
    { unfold apis_alts in Ht.
      apply elem_of_cons in Ht as [->|Ht].
      { apply (Find_subdomain_none "http://" "commondatastorage.googleapis.com");
          [by left|right; right; by left]. }
      apply elem_of_cons in Ht as [->|Ht].
      { apply (Find_subdomain_none "http://" "storage.googleapis.com");
          [by left|right; by left]. }
      apply elem_of_cons in Ht as [->|Ht].
      { apply (Find_subdomain_none "https://" "commondatastorage.googleapis.com");
          [right; by left|right; right; by left]. }
      apply elem_of_cons in Ht as [->|Ht]; [|by apply elem_of_nil in Ht].
      apply (Find_subdomain_none "https://" "storage.googleapis.com");
        [right; by left|right; by left]. }
    rewrite Hr in Hs |- *. rewrite Find_gs_none_h. rewrite <- Hr in Hs |- *.
    rewrite Hsub, (Find_cloud_none _ _ Ht). simpl.
    by rewrite (Find_apis_complete _ _ _ Hs).
Qed.

(** The form with the old host name, over https. *)
Lemma findMatch_any_shape_witness :
  findMatch "https://commondatastorage.googleapis.com/my.bucket-1/dir/run.bat"
  = ("my.bucket-1", "dir/run.bat").
Proof.
  apply findMatch_any_shape. right. right. right.
  exists "https://commondatastorage.googleapis.com/".
  split; [|split; [reflexivity|split; reflexivity]].
  unfold apis_alts. right. right. left.
Defined.

(** X19. [findMatch] never returns a bucket without an object or an
    object without a bucket: both are empty, or the bucket is a bucket
    name and the object is not empty.  The test of [downloadScript] on
    both strings is a test on either. *)
Theorem findMatch_both_or_neither (path b o : string) :
  findMatch path = (b, o) ->
  (b = "" /\ o = "") \/ (is_bucket b = true /\ is_object o = true).
Proof.
  assert (forall prefixes sep b' o',
            storage_url prefixes sep path b' o' ->
            is_bucket b' = true /\ is_object o' = true) as Hvalid.
  { by intros prefixes sep b' o' (t & _ & _ & Hb & Ho). }
  unfold findMatch. cbn [findMatch_range].
  destruct (Find_cases _ _ Find_gs_sound Find_gs_complete path)
    as [(b1 & o1 & Hs & ->)|[_ ->]]; cbn [match_len match_nth length Nat.eqb nth].
  { intros [= <- <-]. right. exact (Hvalid _ _ _ _ Hs). }
  destruct (Find_cases _ _ Find_subdomain_sound Find_subdomain_complete path)
    as [(b1 & o1 & Hs & ->)|[_ ->]]; cbn [match_len match_nth length Nat.eqb nth].
  { intros [= <- <-]. right. exact (Hvalid _ _ _ _ Hs). }
  destruct (Find_cases _ _ Find_cloud_sound Find_cloud_complete path)
    as [(b1 & o1 & Hs & ->)|[_ ->]]; cbn [match_len match_nth length Nat.eqb nth].
  { intros [= <- <-]. right. exact (Hvalid _ _ _ _ Hs). }
  destruct (Find_cases _ _ Find_apis_sound Find_apis_complete path)
    as [(b1 & o1 & Hs & ->)|[_ ->]]; cbn [match_len match_nth length Nat.eqb nth].
  { intros [= <- <-]. right. exact (Hvalid _ _ _ _ Hs). }
  intros [= <- <-]. by left.
Qed.

Lemma findMatch_both_or_neither_witness :
  is_bucket "bkt" = true /\ is_object "x/y.cmd" = true.
Proof.
  destruct (findMatch_both_or_neither "gs://bkt/x/y.cmd" "bkt" "x/y.cmd")
    as [[H _]|H].
  - vm_compute. reflexivity.
  - discriminate H.
  - exact H.
Defined.

Lemma Find_none_g (re : Regexp) (alts : list string) (sep rest : string) :
  (forall s m, FindStringSubmatch re s = Some m ->
     exists b o, storage_url alts sep s b o /\ m = [s; b; o]) ->
  alts ⊆ sub_alts ++ cloud_alts ++ apis_alts ->
  FindStringSubmatch re (String "g" rest) = None.
Proof.
  intros Hsound Halts.
  destruct (FindStringSubmatch re _) as [m|] eqn:Hf; [|done].
  apply Hsound in Hf as (b & o & (t & Ht & Heq & _) & _).
  apply Halts in Ht. rewrite !elem_of_app in Ht.
  destruct (alts_start_h t (b +:+ sep +:+ o)) as [rest' Hr]; [tauto|].
  rewrite Hr in Heq. discriminate Heq.
Qed.

(** X20. A [gs://] reference that names a bucket and no object, with
    or without the slash after the bucket, is not matched: the pattern
    for a bucket alone is never tried. *)
Theorem findMatch_bucket_alone (b : string) :
  is_bucket b = true ->
  findMatch ("gs://" +:+ b) = ("", "") /\
  findMatch ("gs://" +:+ b +:+ "/") = ("", "").
Proof.
  intros Hb.
  assert (forall tail,
            FindStringSubmatch gsRegex ("gs://" +:+ b +:+ tail) = None ->
            findMatch ("gs://" +:+ b +:+ tail) = ("", "")) as Hrest.
  { intros tail Hgs. unfold findMatch. cbn [findMatch_range]. rewrite Hgs.
    rewrite !sapp_cons.
    rewrite (Find_none_g gsHTTPRegex1 sub_alts _ _
               Find_subdomain_sound) by set_solver.
    rewrite (Find_none_g gsHTTPRegex2 cloud_alts _ _
               Find_cloud_sound) by set_solver.
    rewrite (Find_none_g gsHTTPRegex3 apis_alts _ _
               Find_apis_sound) by set_solver.
    reflexivity. }
  split.
  - rewrite <- (sapp_nil_r b) at 1. apply Hrest.
    destruct (FindStringSubmatch gsRegex _) as [m|] eqn:Hf; [|done].
    apply Find_gs_sound in Hf as (b' & o' & (t & Ht & Heq & Hb' & Ho') & _).
    apply elem_of_cons in Ht as [->|Ht]; [|by apply elem_of_nil in Ht].
    apply String.app_inj in Heq. rewrite sapp_nil_r in Heq.
    apply is_bucket_no_slash in Hb. rewrite Heq, !mem_app in Hb. simpl in Hb.
    by rewrite orb_true_r in Hb.
  - apply Hrest.
    destruct (FindStringSubmatch gsRegex _) as [m|] eqn:Hf; [|done].
    apply Find_gs_sound in Hf as (b' & o' & (t & Ht & Heq & Hb' & Ho') & _).
    apply elem_of_cons in Ht as [->|Ht]; [|by apply elem_of_nil in Ht].
    apply String.app_inj in Heq.
    change (b +:+ "/") with (b +:+ String "/" "") in Heq.
    change (b' +:+ "/" +:+ o') with (b' +:+ String "/" o') in Heq.
    apply split_at_first in Heq as [_ <-]; [done| |];
      by apply is_bucket_no_slash.
Qed.

Lemma findMatch_bucket_alone_witness :
  findMatch "gs://my-bucket" = ("", "") /\ findMatch "gs://my-bucket/" = ("", "").
Proof. apply (findMatch_bucket_alone "my-bucket"). reflexivity. Defined.

(** * A short URL value and the exit code *)

Lemma parseMetadata_phase prog phase mdsm md :
  validateArgs [prog; phase] = Ok mdsm ->
  parseMetadata mdsm md = omap (visit phase md) [ps1; cmd; bat; url].
Proof.
  intros [_ ->]%validateArgs_phase.
  unfold parseMetadata, parseMetadata_in. rewrite parseMetadata_range_omap.
  replace (merge_sort Z.le _) with [ps1; cmd; bat; url] by (vm_compute; reflexivity).
  reflexivity.
Qed.

Section Crash.
Variable E : Env.

(** A script of a concrete type whose process exits with a status other
    than 0: [run] returns the exit error and the loop reports it with
    an informational line, then goes on with the rest of the list. *)
Lemma runScripts_exit_status fuel script rest w dir status :
  Type_ script = ps1 \/ Type_ script = cmd \/ Type_ script = bat ->
  (forall h, os_TempDir E h = Done dir) ->
  (forall h f c, os_WriteFile E h f c = None) ->
  (forall h, os_Pipe E h = None) ->
  (forall h argv, cmd_Start E h argv = None) ->
  (forall h argv, cmd_Wait E h argv = Exited status) ->
  status <> 0 ->
  fst (run E (S fuel) script (announced script w))
    = Some (Returned (Some (ExitError status))) /\
  runScripts E (S fuel) (script :: rest) w
    = runScripts E (S fuel) rest
        (reported script status (snd (run E (S fuel) script (announced script w)))).
Proof.
  intros Hc Htmp Hwrite Hpipe Hstart Hwait Hne.
  assert (fst (run E (S fuel) script (announced script w))
          = Some (Returned (Some (ExitError status)))) as Hrun.
  { rewrite (run_concrete _ _ _ _ Hc). simpl. f_equal. f_equal.
    rewrite runner_eq, tempFile_eq. cbn zeta. rewrite Htmp, Hwrite. simpl.
    rewrite runCmd_eq. cbn zeta. rewrite Hpipe, Hstart, Hwait. simpl.
    by destruct (Z.eqb_spec status 0). }
  split; [done|]. rewrite runScripts_cons.
  destruct (run E (S fuel) script (announced script w)) as [r w1].
  simpl in Hrun. by subst r.
Qed.

Lemma runScripts_short_url l1 l2 script w :
  Forall long_enough l1 ->
  Type_ script = url ->
  (len (TrimSpace (Script script)) < 3)%nat ->
  exists w0,
    runScripts E 2 (l1 ++ script :: l2) w = (Some Unwound, announced script w0) /\
    found_labels (history w0) = found_labels (history w) ++ map Metadata l1.
Proof.
  intros Hl Hu Hshort. revert w. induction Hl as [|s rest Hlong _ IH]; intros w.
  - rewrite app_nil_l, runScripts_cons, (run_url_eq _ _ _ _ Hu). cbn zeta.
    destruct (Nat.ltb_spec (len (TrimSpace (Script script))) 3); [|lia].
    exists w. split; [done|]. simpl. by rewrite app_nil_r.
  - rewrite <- app_comm_cons, runScripts_cons.
    destruct (run_returns E s (announced s w) Hlong) as (err & Hr & Hf).
    destruct (run E 2 s (announced s w)) as [r w1]. simpl in Hr, Hf. subst r.
    destruct (IH (MkWorld (history w1 ++ [EvLog (status_line s err)]) (tempdirs w1)))
      as (w0 & -> & Hw0).
    exists w0. split; [done|]. rewrite Hw0. simpl.
    rewrite found_labels_app, Hf. unfold announced. simpl.
    rewrite found_labels_app. simpl.
    destruct err as [[status|msg|p q|s'|c|]|]; simpl;
      by rewrite app_nil_r, <- !app_assoc.
Qed.

(** C2. The exit code does not stay 0 on every run in which the
    arguments are accepted and the metadata is fetched: when the URL
    key of the phase holds a value that is not empty and whose trimmed
    form has fewer than three bytes, the program crashes.  The scripts
    of the other keys are reached first, in their order and whatever
    their exit statuses; then the URL record is announced, and that
    line is the last event of the run: the slice expression panics, no
    status is logged for the record and [main] never gets to its last
    line nor to a return. *)
Theorem main_crashes_on_short_url (prog phase v : string)
    (mdsm : gmap Z string) (md : gmap string string) (w w1 : World) :
  validateArgs [prog; phase] = Ok mdsm ->
  getMetadata E (started E [prog; phase] w) = (Ok md, w1) ->
  md !! script_key phase url = Some v ->
  v <> "" ->
  (len (TrimSpace v) < 3)%nat ->
  exists w0,
    main E 2 [prog; phase] w
      = (Some Crashed, announced (MkScript url v (script_key phase url)) w0) /\
    found_labels (history w0)
      = found_labels (history w1) ++
        map Metadata (omap (visit phase md) [ps1; cmd; bat]).
Proof.
  intros Hargs Hget Hv Hne Hshort.
  assert (parseMetadata mdsm md
          = omap (visit phase md) [ps1; cmd; bat]
            ++ MkScript url v (script_key phase url) :: []) as Hlist.
  { rewrite (parseMetadata_phase _ _ _ _ Hargs).
    change [ps1; cmd; bat; url] with ([ps1; cmd; bat] ++ [url]).
    rewrite omap_app. f_equal. cbn [omap list_omap]. unfold visit. rewrite Hv.
    by destruct (String.eqb_spec v ""). }
  assert (Forall long_enough (omap (visit phase md) [ps1; cmd; bat])) as Hlong.
  { apply Forall_forall. intros r Hr.
    apply list_elem_of_omap in Hr as (st & Hst & Hvis).
    apply visit_Type in Hvis. intros Hu. rewrite Hu in Hvis. subst st.
    set_solver. }
  destruct (runScripts_short_url _ [] (MkScript url v (script_key phase url)) w1
              Hlong eq_refl Hshort) as (w0 & Hloop & Hfound).
  exists w0. split; [|done].
  rewrite main_eq, Hargs, getScripts_eq, Hget, Hlist, Hloop.
  rewrite length_app. simpl length.
  by replace (_ =? 0)%nat with false by (symmetry; apply Nat.eqb_neq; lia).
Qed.

End Crash.

(** The startup phase with a ps1 script that exits with status 3 and
    a URL value of one letter. *)
Definition exit_3_then_short_url : Env :=
  scripted (Done a_tempdir) None (Exited 3) (Done "") (Failed "unused")
    (Done (<["windows-startup-script-url":="a"]>
           (<["windows-startup-script-ps1":="exit 3"]> ∅))).

(** The arguments are accepted and the metadata is fetched; the ps1
    script runs and its exit status 3 is logged with an informational
    line; the URL record is announced and the program crashes. *)
Lemma main_crashes_on_short_url_witness :
  let args := ["GCEMetadataScripts.exe"; "startup"] in
  fst (main exit_3_then_short_url 2 args nothing_yet) = Some Crashed /\
  loop_lines (history (snd (main exit_3_then_short_url 2 args nothing_yet)))
    = [Infoln [Str "Found"; Str "windows-startup-script-ps1"; Str "in metadata."];
       Infoln [Str "windows-startup-script-ps1"; ErrArg (ExitError 3)];
       Infoln [Str "Found"; Str "windows-startup-script-url"; Str "in metadata."]].
Proof.
  intros args. split; [|vm_compute; reflexivity].
  destruct (main_crashes_on_short_url exit_3_then_short_url
              "GCEMetadataScripts.exe" "startup" "a" (phase_keys "startup")
              (<["windows-startup-script-url":="a"]>
               (<["windows-startup-script-ps1":="exit 3"]> ∅))
              nothing_yet
              (snd (getMetadata exit_3_then_short_url
                      (started exit_3_then_short_url args nothing_yet))))
    as (w0 & Hmain & _).
  - vm_compute. reflexivity.
  - vm_compute. reflexivity.
  - vm_compute. reflexivity.
  - done.
  - vm_compute. lia.
  - unfold args. by rewrite Hmain.
Defined.

(** The cmd script of [both_exit_3]: the process exits with status 3,
    [run] returns the exit error. *)
Example run_returns_exit_status :
  fst (run both_exit_3 1 (MkScript cmd "exit /b 3" "windows-startup-script-cmd")
         (announced (MkScript cmd "exit /b 3" "windows-startup-script-cmd")
                    nothing_yet))
  = Some (Returned (Some (ExitError 3))).
Proof.
  by apply (runScripts_exit_status both_exit_3 0 _ [] nothing_yet a_tempdir 3); auto.
Qed.
